(** * Magenta MIDI interface and Drums RNN sequence generator

    A shallow embedding of
      - magenta/interfaces/midi/magenta_midi.py
          (flag validation, bundle loading, hub and interaction set-up), and
      - magenta/models/drums_rnn/drums_rnn_sequence_generator.py
          (DrumsRnnSequenceGenerator._generate),
    followed by the properties of the specification that concern them.

    Conventions.
      - Python [None]-able values are [option]s.
      - Python floats (times in seconds, tempi) are embedded as the
        rationals [Qc]; the comparisons of the source are the comparisons
        of [Qc].
      - Printing, logging and calls on collaborators that live outside the
        two files are recorded as events, in program order. *)

From Stdlib Require Import Ascii QArith Qcanon.
From stdpp Require Import base decidable option list strings numbers gmap pretty.

Local Open Scope string_scope.
Local Open Scope Z_scope.
Local Open Scope list_scope.

(** ** Python helpers *)

(** [s.split(sep)] for a one-character separator: never returns the empty
    list, and [''.split(',')] is [['']]. *)
Fixpoint py_split (sep : Ascii.ascii) (s : string) : list string :=
  match s with
  | EmptyString => [EmptyString]
  | String c rest =>
      if Ascii.eqb c sep then EmptyString :: py_split sep rest
      else match py_split sep rest with
           | [] => [String c EmptyString]
           | word :: words => String c word :: words
           end
  end.

Arguments py_split sep%_char s%_string.

(** [sep.join(words)]. *)
Fixpoint py_join (sep : string) (words : list string) : string :=
  match words with
  | [] => EmptyString
  | [word] => word
  | word :: rest => word +:+ sep +:+ py_join sep rest
  end.

(** [xs.count(None)]. *)
Definition count_None {A} (xs : list (option A)) : nat :=
  length (filter (λ x, x = None) xs).

Module MagentaMidi.

(** ** The flags of magenta_midi.py

    One field per [tf.app.flags.DEFINE_*] call, with its declared type;
    the defaults of the source are in [default_flags]. *)
Record Flags := {
  list_ports : bool;
  input_port : string;
  output_port : string;
  phrase_bars : option Z;
  start_call_control_number : option Z;
  end_call_control_number : option Z;
  temperature_control_number : option Z;
  qpm : Z;
  bundle_files : option string;
  generator_select_control_number : option Z;
  log : string
}.

Definition default_flags : Flags := {|
  list_ports := false;
  input_port := "magenta_in";
  output_port := "magenta_out";
  phrase_bars := None;
  start_call_control_number := None;
  end_call_control_number := None;
  temperature_control_number := None;
  qpm := 90;
  bundle_files := None;
  generator_select_control_number := None;
  log := "WARN"
|}.

(** The value of a flag as [FLAGS.<name>] yields it. *)
Inductive flag_value :=
| FlagBool (b : bool)
| FlagInt (v : option Z)
| FlagString (v : option string).

(** Exceptions that the code of magenta_midi.py can raise itself. *)
Inductive exn :=
| AttributeError (name : string)
| TypeError (what : string).

(** [FLAGS.<name>]: attribute access on the flag values.  Only the flags
    defined above exist; any other name raises [AttributeError]. *)
Definition FLAGS_getattr (f : Flags) (name : string) : exn + flag_value :=
  if decide (name = "list_ports") then inr (FlagBool (list_ports f))
  else if decide (name = "input_port") then inr (FlagString (Some (input_port f)))
  else if decide (name = "output_port") then inr (FlagString (Some (output_port f)))
  else if decide (name = "phrase_bars") then inr (FlagInt (phrase_bars f))
  else if decide (name = "start_call_control_number")
       then inr (FlagInt (start_call_control_number f))
  else if decide (name = "end_call_control_number")
       then inr (FlagInt (end_call_control_number f))
  else if decide (name = "temperature_control_number")
       then inr (FlagInt (temperature_control_number f))
  else if decide (name = "qpm") then inr (FlagInt (Some (qpm f)))
  else if decide (name = "bundle_files") then inr (FlagString (bundle_files f))
  else if decide (name = "generator_select_control_number")
       then inr (FlagInt (generator_select_control_number f))
  else if decide (name = "log") then inr (FlagString (Some (log f)))
  else inl (AttributeError name).

(** ['%s' % v] for a flag value. *)
Definition format_s (v : flag_value) : string :=
  match v with
  | FlagBool true => "True"
  | FlagBool false => "False"
  | FlagInt (Some n) => pretty n
  | FlagString (Some s) => s
  | FlagInt None | FlagString None => "None"
  end.

(** ** Collaborators outside the file *)

(** [bundle.generator_details.id] is all the file reads of a bundle. *)
Record GeneratorBundle := { generator_details_id : string }.

(** A generator instance, as built by an entry of [_GENERATOR_MAP]. *)
Record Generator := {
  generator_id : string;
  generator_checkpoint : option string;
  generator_bundle : GeneratorBundle
}.

Inductive TextureType := MONOPHONIC | POLYPHONIC.

Record MidiHub := {
  hub_input_port : string;
  hub_output_port : string;
  hub_texture : TextureType
}.

(** Modelled from the spec: [midi_hub.MidiSignal] and the messages it is
    matched against are not part of the two files.  The data model gives a
    message as NoteOn, NoteOff or ControlChange, and a signal as either
    control number with optional value or note number with optional velocity. *)
Inductive MidiMessage :=
| NoteOn (pitch velocity : Z) (time : Qc)
| NoteOff (pitch : Z) (time : Qc)
| ControlChange (number value : Z) (time : Qc).

Inductive MidiSignal :=
| ControlSignal (control : Z) (value : option Z)
| NoteSignal (note : Z) (velocity : option Z).

(** Modelled from the spec: a message matches a signal iff all present
    fields are equal; absent fields are wildcards. *)
Definition field_matches (field : option Z) (v : Z) : bool :=
  match field with
  | None => true
  | Some x => bool_decide (x = v)
  end.

Definition matches (signal : MidiSignal) (msg : MidiMessage) : bool :=
  match signal, msg with
  | ControlSignal c v, ControlChange number value _ =>
      bool_decide (c = number) && field_matches v value
  | NoteSignal n v, NoteOn pitch velocity _ =>
      bool_decide (n = pitch) && field_matches v velocity
  | _, _ => false
  end.

(** The arguments [main] passes to [CallAndResponseMidiInteraction]. *)
Record InteractionArgs := {
  arg_hub : MidiHub;
  arg_generators : list Generator;
  arg_qpm : Z;
  arg_generator_select_control_number : option Z;
  arg_phrase_bars : option Z;
  arg_start_call_signal : option MidiSignal;
  arg_end_call_signal : option MidiSignal;
  arg_temperature_control_number : option Z
}.

(** What the process is run against: the ports of the system, the bundle
    files on disk, the generator map imported from melody_rnn, and the
    number of [time.sleep(1)] calls that complete before CTRL-C. *)
Record World := {
  get_available_input_ports : list string;
  get_available_output_ports : list string;
  (** [None] stands for [GeneratorBundleParseException]. *)
  read_bundle_file : string → option GeneratorBundle;
  _GENERATOR_MAP : gmap string (option string → GeneratorBundle → Generator);
  interrupt_after : nat
}.

(** ** Output *)

(** The lines the file prints, one constructor per [print] statement. *)
Inductive message :=
| InputPorts (ports : list string)
| OutputPorts (ports : list string)
| BundleFilesMustBeSpecified
| ExactlyOneBoundary
| MultipleBundlesNeedSelect
| FailedToParse (file : string)
| UnrecognizedId (id file : string)
| LoadedGenerator (id file : string)
| VirtualInput (port : string)
| VirtualOutput (port : string)
| BlankLine
| InstructionsHeader
| BeginCallWith (control : Z)
| PlayOnMetronome
| AfterBars (bars : Z)
| EndCallWith (control : Z)
| AtEndOfBar
| WaitForNewCall (control : Z)
| MetronomeAgain
| PressCtrlC
| InteractionStopped.

(** The text of each line. *)
Definition render (m : message) : string :=
  match m with
  | InputPorts ports => "Input ports: '" +:+ py_join "', '" ports +:+ "'"
  | OutputPorts ports => "Ouput ports: '" +:+ py_join "', '" ports +:+ "'"
  | BundleFilesMustBeSpecified => "--bundle_files must be specified."
  | ExactlyOneBoundary =>
      "Exactly one of --end_call_control_number or --phrase_bars should be "
      +:+ "specified."
  | MultipleBundlesNeedSelect =>
      "If specifiying multiple bundle files (generators), "
      +:+ "--generator_select_control_number must be specified."
  | FailedToParse file => "Failed to parse bundle file: " +:+ file
  | UnrecognizedId id file =>
      "Unrecognized SequenceGenerator ID '" +:+ id +:+ "' in bundle file: " +:+ file
  | LoadedGenerator id file =>
      "Loaded '" +:+ id +:+ "' generator bundle from file '" +:+ file +:+ "'."
  | VirtualInput port => "Opening '" +:+ port +:+ "' as a virtual MIDI port for input."
  | VirtualOutput port => "Opening '" +:+ port +:+ "' as a virtual MIDI port for output."
  | BlankLine => EmptyString
  | InstructionsHeader => "Instructions:"
  | BeginCallWith c =>
      "When you want to begin the call phrase, signal control number "
      +:+ pretty c +:+ " with value 0."
  | PlayOnMetronome => "Play when you hear the metronome ticking."
  | AfterBars n =>
      "After " +:+ pretty n +:+ " bars (4 beats), Magenta will play its response."
  | EndCallWith c =>
      "When you want to end the call phrase, signal control number "
      +:+ pretty c +:+ " with value 0"
  | AtEndOfBar =>
      "At the end of the current bar (4 beats), Magenta will play its response."
  | WaitForNewCall c =>
      "Once the response completes, the interface will wait for you to "
      +:+ "signal a new call phrase using control number " +:+ pretty c +:+ "."
  | MetronomeAgain =>
      "Once the response completes, the metronome will tick and you can "
      +:+ "play again."
  | PressCtrlC => "To end the interaction, press CTRL-C."
  | InteractionStopped => "Interaction stopped."
  end.

(** Everything observable that [main] does, in order. *)
Inductive event :=
| SetVerbosity (level : string)
| Print (m : message)
| Initialize (g : Generator)
| OpenMidiHub (hub : MidiHub)
| NewInteraction (args : InteractionArgs)
| Start
| Sleep (seconds : Z)
| Stop.

(** ** An error monad that logs events *)

(** A computation yields an exception or a value, and the events it caused
    up to that point. *)
Definition M (A : Type) : Type := (exn + A) * list event.

Definition ret {A} (a : A) : M A := (inr a, []).

Definition bind {A B} (m : M A) (k : A → M B) : M B :=
  match m.1 with
  | inr a => ((k a).1, m.2 ++ (k a).2)
  | inl e => (inl e, m.2)
  end.

Definition raise {A} (e : exn) : M A := (inl e, []).

Definition emit (e : event) : M unit := (inr (), [e]).

Definition print (m : message) : M unit := emit (Print m).

(** Lift a fallible pure computation. *)
Definition lift {A} (x : exn + A) : M A :=
  match x with
  | inl e => raise e
  | inr a => ret a
  end.

Declare Scope py_scope.
Delimit Scope py_scope with py.
Notation "'let*' x ':=' m 'in' k" := (bind m (λ x, k))
  (at level 10, x name, m at level 100, k at level 200) : py_scope.
Notation "m ';;' k" := (bind m (λ _, k))
  (at level 100, k at level 200, right associativity) : py_scope.
Local Open Scope py_scope.

(** ** The functions of magenta_midi.py *)

(** [_validate_flags()]: returns True if flag values are valid or prints
    an error and returns False. *)
Definition _validate_flags (w : World) (f : Flags) : M bool :=
  if list_ports f then
    print (InputPorts (get_available_input_ports w));;
    print (OutputPorts (get_available_output_ports w));;
    ret false
  else
  match bundle_files f with
  | None =>
      print BundleFilesMustBeSpecified;;
      ret false
  | Some files =>
      if decide (count_None [end_call_control_number f; phrase_bars f] ≠ 1%nat)
      then
        print ExactlyOneBoundary;;
        ret false
      else
      if decide ((1 < length (py_split "," files))%nat
                 ∧ generator_select_control_number f = None)
      then
        print MultipleBundlesNeedSelect;;
        ret false
      else ret true
  end.

(** [_load_generator_from_bundle_file(bundle_file)]: returns the
    initialized generator, or None if it fails.  Both failure branches
    format their message with [FLAGS.bundle_file], the success branch with
    the argument [bundle_file]. *)
Definition _load_generator_from_bundle_file (w : World) (f : Flags)
    (bundle_file : string) : M (option Generator) :=
  match read_bundle_file w bundle_file with
  | None =>
      let* flag := lift (FLAGS_getattr f "bundle_file") in
      print (FailedToParse (format_s flag));;
      ret None
  | Some bundle =>
      let generator_id := generator_details_id bundle in
      match _GENERATOR_MAP w !! generator_id with
      | None =>
          let* flag := lift (FLAGS_getattr f "bundle_file") in
          print (UnrecognizedId generator_id (format_s flag));;
          ret None
      | Some make_generator =>
          let generator := make_generator None bundle in
          emit (Initialize generator);;
          print (LoadedGenerator (generator_details_id bundle) bundle_file);;
          ret (Some generator)
      end
  end.

(** [_print_instructions()]. *)
Definition _print_instructions (f : Flags) : M unit :=
  print BlankLine;;
  print InstructionsHeader;;
  match start_call_control_number f with
  | Some c => print (BeginCallWith c)
  | None => ret ()
  end;;
  print PlayOnMetronome;;
  match phrase_bars f with
  | Some bars => print (AfterBars bars)
  | None =>
      match end_call_control_number f with
      | Some c => print (EndCallWith c)
      | None => raise (TypeError "%d format: a number is required")
      end;;
      print AtEndOfBar
  end;;
  match start_call_control_number f with
  | Some c => print (WaitForNewCall c)
  | None => print MetronomeAgain
  end;;
  print BlankLine;;
  print PressCtrlC.

(** The loop of [main] that loads the generators: each bundle file is
    loaded in turn and appended to [generators]; the outcome [None] is the
    [return] of [main] taken when the last appended entry is None. *)
Fixpoint load_generators (w : World) (f : Flags) (bundle_files : list string)
    (generators : list Generator) : M (option (list Generator)) :=
  match bundle_files with
  | [] => ret (Some generators)
  | bundle_file :: rest =>
      let* g := _load_generator_from_bundle_file w f bundle_file in
      match g with
      | None => ret None
      | Some generator => load_generators w f rest (generators ++ [generator])
      end
  end.

(** [while True: time.sleep(1)], left by the KeyboardInterrupt that arrives
    after [n] completed sleeps. *)
Fixpoint sleep_until_interrupt (n : nat) : M unit :=
  match n with
  | O => ret ()
  | S n' => emit (Sleep 1);; sleep_until_interrupt n'
  end.

(** [main(unused_argv)]. *)
Definition main (w : World) (f : Flags) : M unit :=
  emit (SetVerbosity (log f));;
  let* valid := _validate_flags w f in
  if negb valid then ret () else
  (* Load generators. *)
  match bundle_files f with
  | None => raise (AttributeError "split")
  | Some files =>
  let* loaded := load_generators w f (py_split "," files) [] in
  match loaded with
  | None => ret ()
  | Some generators =>
  (* Initialize MidiHub. *)
  (if decide (input_port f ∉ get_available_input_ports w)
   then print (VirtualInput (input_port f)) else ret ());;
  (if decide (output_port f ∉ get_available_output_ports w)
   then print (VirtualOutput (output_port f)) else ret ());;
  let hub := {| hub_input_port := input_port f;
                hub_output_port := output_port f;
                hub_texture := MONOPHONIC |} in
  emit (OpenMidiHub hub);;
  let start_call_signal :=
    match start_call_control_number f with
    | None => None
    | Some c => Some (ControlSignal c (Some 0))
    end in
  let end_call_signal :=
    match end_call_control_number f with
    | None => None
    | Some c => Some (ControlSignal c (Some 0))
    end in
  emit (NewInteraction {|
    arg_hub := hub;
    arg_generators := generators;
    arg_qpm := qpm f;
    arg_generator_select_control_number := generator_select_control_number f;
    arg_phrase_bars := phrase_bars f;
    arg_start_call_signal := start_call_signal;
    arg_end_call_signal := end_call_signal;
    arg_temperature_control_number := temperature_control_number f |});;
  _print_instructions f;;
  emit Start;;
  sleep_until_interrupt (interrupt_after w);;
  emit Stop;;
  print InteractionStopped
  end
  end.

(** ** Vocabulary of the specification *)

(** Exactly one of [end_call_control_number] and [phrase_bars] is
    specified. *)
Definition exactly_one_boundary (f : Flags) : Prop :=
  (is_Some (end_call_control_number f) ∧ phrase_bars f = None)
  ∨ (end_call_control_number f = None ∧ is_Some (phrase_bars f)).

(** The error lines of [_validate_flags]; the listing of ports is not one. *)
Definition is_error (m : message) : bool :=
  match m with
  | BundleFilesMustBeSpecified | ExactlyOneBoundary | MultipleBundlesNeedSelect => true
  | _ => false
  end.

Definition reports_error (log : list event) : Prop :=
  ∃ m, Print m ∈ log ∧ is_error m = true.

(** The bundle file parses and names a generator of the generator map. *)
Definition loads (w : World) (bundle_file : string) : bool :=
  match read_bundle_file w bundle_file with
  | None => false
  | Some bundle =>
      bool_decide (is_Some (_GENERATOR_MAP w !! generator_details_id bundle))
  end.

(** ** Vocabulary for the log of [main] *)

(** The events of a successful load. *)
Definition load_event (e : event) : Prop :=
  match e with
  | Initialize _ | Print (LoadedGenerator _ _) => True
  | _ => False
  end.

(** The events of [_print_instructions]. *)
Definition instruction_event (e : event) : Prop :=
  match e with
  | Print (BlankLine | InstructionsHeader | BeginCallWith _ | PlayOnMetronome
          | AfterBars _ | EndCallWith _ | AtEndOfBar | WaitForNewCall _
          | MetronomeAgain | PressCtrlC) => True
  | _ => False
  end.

(** The hub [main] opens. *)
Definition the_hub (f : Flags) : MidiHub :=
  {| hub_input_port := input_port f;
     hub_output_port := output_port f;
     hub_texture := MONOPHONIC |}.

(** The signal [main] builds for a control number. *)
Definition call_signal (control_number : option Z) : option MidiSignal :=
  match control_number with
  | None => None
  | Some c => Some (ControlSignal c (Some 0))
  end.

(** The arguments [main] builds the interaction with. *)
Definition the_interaction (f : Flags) (generators : list Generator)
    : InteractionArgs :=
  {| arg_hub := the_hub f;
     arg_generators := generators;
     arg_qpm := qpm f;
     arg_generator_select_control_number := generator_select_control_number f;
     arg_phrase_bars := phrase_bars f;
     arg_start_call_signal := call_signal (start_call_control_number f);
     arg_end_call_signal := call_signal (end_call_control_number f);
     arg_temperature_control_number := temperature_control_number f |}.

(** The notices about virtual ports. *)
Definition notices (w : World) (f : Flags) : list event :=
  (if decide (input_port f ∉ get_available_input_ports w)
   then [Print (VirtualInput (input_port f))] else [])
  ++ (if decide (output_port f ∉ get_available_output_ports w)
      then [Print (VirtualOutput (output_port f))] else []).

(** ** A sample installation, to run the functions on *)

Definition make (id : string) (checkpoint : option string)
    (bundle : GeneratorBundle) : Generator :=
  {| generator_id := id;
     generator_checkpoint := checkpoint;
     generator_bundle := bundle |}.

(** One system input port of the default name and no output port; a file
    that does not parse, a file of an unknown generator, and every other
    file a bundle of the basic melody generator; CTRL-C after two seconds. *)
Definition studio : World := {|
  get_available_input_ports := ["magenta_in"];
  get_available_output_ports := [];
  read_bundle_file := λ file,
    if decide (file = "broken.mag") then None
    else if decide (file = "unknown.mag")
         then Some {| generator_details_id := "mystery_rnn" |}
    else Some {| generator_details_id := "basic_rnn" |};
  _GENERATOR_MAP :=
    {[ "basic_rnn" := make "basic_rnn"; "lookback_rnn" := make "lookback_rnn" ]};
  interrupt_after := 2
|}.

(** [--bundle_files=basic_rnn.mag --phrase_bars=2
     --start_call_control_number=1]. *)
Definition two_bar_flags : Flags := {|
  list_ports := false;
  input_port := "magenta_in";
  output_port := "magenta_out";
  phrase_bars := Some 2;
  start_call_control_number := Some 1;
  end_call_control_number := None;
  temperature_control_number := None;
  qpm := 90;
  bundle_files := Some "basic_rnn.mag";
  generator_select_control_number := None;
  log := "WARN"
|}.

(** [--bundle_files=basic_rnn.mag --end_call_control_number=2]. *)
Definition signal_flags : Flags := {|
  list_ports := false;
  input_port := "magenta_in";
  output_port := "magenta_out";
  phrase_bars := None;
  start_call_control_number := None;
  end_call_control_number := Some 2;
  temperature_control_number := None;
  qpm := 90;
  bundle_files := Some "basic_rnn.mag";
  generator_select_control_number := None;
  log := "WARN"
|}.


(** [--bundle_files=basic_rnn.mag --phrase_bars=2
     --end_call_control_number=2]: both boundaries. *)
Definition both_boundaries_flags : Flags := {|
  list_ports := false;
  input_port := "magenta_in";
  output_port := "magenta_out";
  phrase_bars := Some 2;
  start_call_control_number := None;
  end_call_control_number := Some 2;
  temperature_control_number := None;
  qpm := 90;
  bundle_files := Some "basic_rnn.mag";
  generator_select_control_number := None;
  log := "WARN"
|}.

(** [--list_ports --bundle_files=a.mag,b.mag --phrase_bars=2]. *)
Definition list_ports_flags : Flags := {|
  list_ports := true;
  input_port := "magenta_in";
  output_port := "magenta_out";
  phrase_bars := Some 2;
  start_call_control_number := None;
  end_call_control_number := None;
  temperature_control_number := None;
  qpm := 90;
  bundle_files := Some "a.mag,b.mag";
  generator_select_control_number := None;
  log := "WARN"
|}.

(** [--bundle_files=a.mag,b.mag --phrase_bars=2]. *)
Definition two_bundles_flags : Flags := {|
  list_ports := false;
  input_port := "magenta_in";
  output_port := "magenta_out";
  phrase_bars := Some 2;
  start_call_control_number := None;
  end_call_control_number := None;
  temperature_control_number := None;
  qpm := 90;
  bundle_files := Some "a.mag,b.mag";
  generator_select_control_number := None;
  log := "WARN"
|}.

(** [--bundle_files=broken.mag --phrase_bars=2]. *)
Definition broken_bundle_flags : Flags := {|
  list_ports := false;
  input_port := "magenta_in";
  output_port := "magenta_out";
  phrase_bars := Some 2;
  start_call_control_number := None;
  end_call_control_number := None;
  temperature_control_number := None;
  qpm := 90;
  bundle_files := Some "broken.mag";
  generator_select_control_number := None;
  log := "WARN"
|}.

(** [--bundle_files=unknown.mag --phrase_bars=2]. *)
Definition unknown_bundle_flags : Flags := {|
  list_ports := false;
  input_port := "magenta_in";
  output_port := "magenta_out";
  phrase_bars := Some 2;
  start_call_control_number := None;
  end_call_control_number := None;
  temperature_control_number := None;
  qpm := 90;
  bundle_files := Some "unknown.mag";
  generator_select_control_number := None;
  log := "WARN"
|}.

(** ** Vocabulary for the bundle files and their generators *)

(** The number of commas of a flag value. *)
Fixpoint commas (s : string) : nat :=
  match s with
  | EmptyString => 0
  | String c rest => (if Ascii.eqb c "," then 1 else 0) + commas rest
  end.

(** The generator a bundle file stands for: the entry of the generator
    map for the id of its bundle, called with [checkpoint=None] and the
    bundle; [None] when the file does not load. *)
Definition generator_of (w : World) (bundle_file : string) : option Generator :=
  bundle ← read_bundle_file w bundle_file;
  make_generator ← _GENERATOR_MAP w !! generator_details_id bundle;
  Some (make_generator None bundle).

(** The generators whose [initialize()] a log records, in order. *)
Definition initialized (log : list event) : list Generator :=
  omap (λ e, match e with Initialize g => Some g | _ => None end) log.

(** [--bundle_files=basic_rnn.mag,other.mag,broken.mag,last.mag
     --phrase_bars=2 --generator_select_control_number=3]. *)
Definition four_bundles_flags : Flags := {|
  list_ports := false;
  input_port := "magenta_in";
  output_port := "magenta_out";
  phrase_bars := Some 2;
  start_call_control_number := None;
  end_call_control_number := None;
  temperature_control_number := None;
  qpm := 90;
  bundle_files := Some "basic_rnn.mag,other.mag,broken.mag,last.mag";
  generator_select_control_number := Some 3;
  log := "WARN"
|}.

(** [--bundle_files=basic_rnn.mag,other.mag --phrase_bars=2
     --generator_select_control_number=3]. *)
Definition selectable_flags : Flags := {|
  list_ports := false;
  input_port := "magenta_in";
  output_port := "magenta_out";
  phrase_bars := Some 2;
  start_call_control_number := None;
  end_call_control_number := None;
  temperature_control_number := None;
  qpm := 90;
  bundle_files := Some "basic_rnn.mag,other.mag";
  generator_select_control_number := Some 3;
  log := "WARN"
|}.

End MagentaMidi.

Module DrumsRnn.

(** ** Data of drums_rnn_sequence_generator.py

    The protocol-buffer messages and the [DrumTrack] class are declared
    outside the file; the records keep the fields that [_generate] reads. *)

Module Note.
Record t := { pitch : Z; velocity : Z; start_time : Qc; end_time : Qc }.
End Note.

Module Tempo.
Record t := { time : Qc; qpm : Qc }.
End Tempo.

Record NoteSequence := {
  notes : list Note.t;
  tempos : list Tempo.t;
  total_time : Qc
}.

Module SequenceSection.
Record t := { start_time : Qc; end_time : Qc }.
End SequenceSection.

(** Modelled from the spec: the value of a generator argument is a float
    or an int ([args: mapping name→{float|int} value]); the declaration of
    [GeneratorOptions.ArgValue] is not part of the file.  Reading the field
    that is not set yields the default 0, as for every protocol-buffer
    scalar. *)
Module ArgValue.
Inductive t :=
| Float (v : Qc)
| Int (v : Z).

Definition float_value (arg : t) : Qc :=
  match arg with Float v => v | Int _ => 0%Qc end.

Definition int_value (arg : t) : Z :=
  match arg with Int v => v | Float _ => 0 end.
End ArgValue.

Record GeneratorOptions := {
  input_sections : list SequenceSection.t;
  generate_sections : list SequenceSection.t;
  args : gmap string ArgValue.t
}.

(** [mm.DrumTrack]: the events (each a set of drum pitches), and the
    step the track starts at.  A track is falsy when it has no events. *)
Record DrumTrack := {
  events : list (list Z);
  start_step : Z
}.

(** A Python value passed as a keyword argument. *)
Inductive pyval :=
| PyFloat (v : Qc)
| PyInt (v : Z).

(** A bar count that may be [float('inf')]. *)
Inductive bars :=
| Bars (n : Qc)
| Infinite.

(** ** Exceptions *)

Inductive generator_error :=
| AtMostOneInputSection (got : nat)
| OnlyOneGenerateSection (got : nat)
| SectionNotAfterEnd (requested_start_time final_note_end_time : Qc).

Inductive exn :=
| SequenceGeneratorException (why : generator_error)
| AssertionError
| AttributeError (name : string)
| IndexError
(** An exception that left one of the calls below. *)
| CalleeError (description : string).

(** ** Calls on collaborators

    The functions of [magenta.music], the methods of the base generator
    class and of the model that [_generate] calls, with their arguments as
    passed. *)
Inductive call :=
| extract_subsequence (sequence : option NoteSequence) (start_time end_time : Qc)
| seconds_to_steps (seconds qpm : Qc)
| quantize_note_sequence (sequence : NoteSequence) (steps_per_quarter : Z)
| extract_drum_tracks (quantized_sequence : NoteSequence)
    (search_start_step min_bars : Z) (gap_bars : bars)
| set_length (drums : DrumTrack) (steps : Z)
| generate_drum_track (num_steps : Z) (primer_drums : DrumTrack)
    (kwargs : gmap string pyval)
| to_sequence (drums : DrumTrack) (qpm : Qc).

(** What each call returns; [set_length] returns the track as it left it. *)
Definition result (c : call) : Type :=
  match c with
  | extract_subsequence _ _ _ => NoteSequence
  | seconds_to_steps _ _ => Z
  | quantize_note_sequence _ _ => NoteSequence
  | extract_drum_tracks _ _ _ _ => list DrumTrack
  | set_length _ _ => DrumTrack
  | generate_drum_track _ _ _ => DrumTrack
  | to_sequence _ _ => NoteSequence
  end.

(** A program: it returns, raises, or calls out and continues with the
    result of the call. *)
Inductive prog (A : Type) : Type :=
| Ret (a : A)
| Raise (e : exn)
| Call (c : call) (k : result c → prog A).
Arguments Ret {A} a.
Arguments Raise {A} e.
Arguments Call {A} c k.

Fixpoint bind {A B} (p : prog A) (k : A → prog B) : prog B :=
  match p with
  | Ret a => k a
  | Raise e => Raise e
  | Call c k' => Call c (λ r, bind (k' r) k)
  end.

Definition perform (c : call) : prog (result c) := Call c Ret.

Declare Scope prog_scope.
Delimit Scope prog_scope with prog.
Notation "'let*' x ':=' m 'in' k" := (bind m (λ x, k))
  (at level 10, x name, m at level 100, k at level 200) : prog_scope.
Local Open Scope prog_scope.

(** The behaviour of the collaborators: each call yields its result, or
    the description of the exception that left it. *)
Definition handler : Type := ∀ c : call, string + result c.

(** Running a program against the collaborators gives its outcome and the
    calls it made, in order. *)
Fixpoint run {A} (h : handler) (p : prog A) : (exn + A) * list call :=
  match p with
  | Ret a => (inr a, [])
  | Raise e => (inl e, [])
  | Call c k =>
      match h c with
      | inl description => (inl (CalleeError description), [c])
      | inr r => ((run h (k r)).1, c :: (run h (k r)).2)
      end
  end.

(** On every path of the program, whatever the collaborators answer,
    each call made satisfies [P] and the outcome satisfies [Q]. *)
Fixpoint always {A} (P : call → Prop) (Q : exn + A → Prop) (p : prog A) : Prop :=
  match p with
  | Ret a => Q (inr a)
  | Raise e => Q (inl e)
  | Call c k =>
      P c ∧ (∀ description, Q (inl (CalleeError description)))
      ∧ ∀ r, always P Q (k r)
  end.

(** ** Python helpers *)

(** [max(x, *xs)]: a later item replaces the current maximum only when it
    is strictly greater. *)
Definition py_max (x : Qc) (xs : list Qc) : Qc :=
  foldl (λ best y, if decide (best < y)%Qc then y else best) x xs.

(** [max(n.end_time for n in notes) if notes else 0]. *)
Definition last_note_end (notes : list Note.t) : Qc :=
  match Note.end_time <$> notes with
  | [] => 0%Qc
  | t :: ts => py_max t ts
  end.

(** [xs[0]]. *)
Definition first {A} (xs : list A) : prog A :=
  match xs with
  | [] => Raise IndexError
  | x :: _ => Ret x
  end.

(** The tolerance [1e-5] of the final assertion. *)
Definition tolerance : Qc := Q2Qc (1 # 100000).

(** The generator instance: [self.steps_per_quarter]; the model behind
    [self._model] is reached through [generate_drum_track]. *)
Record DrumsRnnSequenceGenerator := { steps_per_quarter : Z }.

(** The table [arg_types] of [_generate]. *)
Definition arg_types : list (string * (ArgValue.t → pyval)) :=
  [ ("temperature", λ arg, PyFloat (ArgValue.float_value arg));
    ("beam_size", λ arg, PyInt (ArgValue.int_value arg));
    ("branch_factor", λ arg, PyInt (ArgValue.int_value arg));
    ("steps_per_iteration", λ arg, PyInt (ArgValue.int_value arg)) ].

(** [dict((name, value_fn(options_args[name]))
          for name, value_fn in arg_types.items() if name in options_args)]. *)
Definition extract_args (options_args : gmap string ArgValue.t)
    : gmap string pyval :=
  list_to_map
    (omap (λ '(name, value_fn),
             (λ arg, (name, value_fn arg)) <$> options_args !! name)
          arg_types).

Section Generate.

(** [mm.DEFAULT_QUARTERS_PER_MINUTE], a constant of the library. *)
Variable DEFAULT_QUARTERS_PER_MINUTE : Qc.

(** [DrumsRnnSequenceGenerator._generate(self, input_sequence,
    generator_options)]. *)
Definition _generate (self : DrumsRnnSequenceGenerator)
    (input_sequence : option NoteSequence)
    (generator_options : GeneratorOptions) : prog NoteSequence :=
  if decide (1 < length (input_sections generator_options))%nat then
    Raise (SequenceGeneratorException
             (AtMostOneInputSection (length (input_sections generator_options))))
  else
  if decide (length (generate_sections generator_options) ≠ 1%nat) then
    Raise (SequenceGeneratorException
             (OnlyOneGenerateSection (length (generate_sections generator_options))))
  else
  let* qpm :=
    match input_sequence with
    | Some sequence =>
        if decide (tempos sequence ≠ []) then
          let* tempo := first (tempos sequence) in
          Ret (Tempo.qpm tempo)
        else Ret DEFAULT_QUARTERS_PER_MINUTE
    | None => Ret DEFAULT_QUARTERS_PER_MINUTE
    end in
  let* generate_section := first (generate_sections generator_options) in
  let* primer_and_step :=
    match input_sections generator_options with
    | input_section :: _ =>
        let* primer_sequence :=
          perform (extract_subsequence input_sequence
                     (SequenceSection.start_time input_section)
                     (SequenceSection.end_time input_section)) in
        let* input_start_step :=
          perform (seconds_to_steps
                     (SequenceSection.start_time input_section) qpm) in
        Ret (Some primer_sequence, input_start_step)
    | [] => Ret (input_sequence, 0)
    end in
  let input_start_step := primer_and_step.2 in
  match primer_and_step.1 with
  | None => Raise (AttributeError "notes")
  | Some primer_sequence =>
  let last_end_time := last_note_end (notes primer_sequence) in
  if decide (SequenceSection.start_time generate_section ≤ last_end_time)%Qc then
    Raise (SequenceGeneratorException
             (SectionNotAfterEnd
                (SequenceSection.start_time generate_section) last_end_time))
  else
  (* Quantize the priming sequence. *)
  let* quantized_sequence :=
    perform (quantize_note_sequence primer_sequence (steps_per_quarter self)) in
  (* Setting gap_bars to infinite ensures that the entire input will be used. *)
  let* extracted_drum_tracks :=
    perform (extract_drum_tracks quantized_sequence input_start_step 0 Infinite) in
  if decide (1 < length extracted_drum_tracks)%nat then Raise AssertionError else
  let* start_step :=
    perform (seconds_to_steps
               (SequenceSection.start_time generate_section) qpm) in
  let* end_step :=
    perform (seconds_to_steps
               (SequenceSection.end_time generate_section) qpm) in
  let drums :=
    match extracted_drum_tracks with
    | track :: _ =>
        if decide (events track ≠ []) then track
        else {| events := []; start_step := Z.max 0 (start_step - 1) |}
    | [] => {| events := []; start_step := Z.max 0 (start_step - 1) |}
    end in
  (* Ensure that the drum track extends up to the step we want to start
     generating. *)
  let* drums := perform (set_length drums (start_step - DrumsRnn.start_step drums)) in
  (* Extract generation arguments from generator options. *)
  let args := extract_args (args generator_options) in
  let* generated_drums :=
    perform (generate_drum_track (end_step - DrumsRnn.start_step drums) drums args) in
  let* generated_sequence := perform (to_sequence generated_drums qpm) in
  if decide (total_time generated_sequence
             - SequenceSection.end_time generate_section ≤ tolerance)%Qc
  then Ret generated_sequence
  else Raise AssertionError
  end.

End Generate.

(** ** Vocabulary of the specification *)

(** The tempo of a generation, in the words of the specification: the qpm
    of the first tempo of the input sequence when there is an input
    sequence and it has a tempo, the default otherwise. *)
Definition spec_qpm (default : Qc) (input_sequence : option NoteSequence) : Qc :=
  match input_sequence with
  | Some {| tempos := tempo :: _ |} => Tempo.qpm tempo
  | _ => default
  end.

(** The value forwarded for a recognized name. *)
Definition forwarded (name : string) (arg : ArgValue.t) : pyval :=
  if decide (name = "temperature") then PyFloat (ArgValue.float_value arg)
  else PyInt (ArgValue.int_value arg).

(** The fixed set of argument names. *)
Definition recognized : list string :=
  ["temperature"; "beam_size"; "branch_factor"; "steps_per_iteration"].

(** The options with one more argument. *)
Definition with_arg (name : string) (arg : ArgValue.t)
    (options : GeneratorOptions) : GeneratorOptions :=
  {| input_sections := input_sections options;
     generate_sections := generate_sections options;
     args := <[name := arg]> (args options) |}.

(** [primed h input options primer]: against the collaborators [h],
    [primer] is the priming sequence the range check of [_generate] looks
    at, namely the input sequence itself when there is no input section,
    and what [extract_subsequence] returns for the input section otherwise
    (the start step of the section being computed without an exception). *)
Inductive primed (h : handler) (input_sequence : option NoteSequence)
    (options : GeneratorOptions) (primer : NoteSequence) : Prop :=
| primed_by_input :
    input_sections options = [] →
    input_sequence = Some primer →
    primed h input_sequence options primer
| primed_by_section input_section :
    input_sections options = [input_section] →
    h (extract_subsequence input_sequence
         (SequenceSection.start_time input_section)
         (SequenceSection.end_time input_section)) = inr primer →
    (∀ qpm, ∃ step,
       h (seconds_to_steps (SequenceSection.start_time input_section) qpm)
       = inr step) →
    primed h input_sequence options primer.

(** The generate-range error, whatever its two times. *)
Definition is_range_error (outcome : exn + NoteSequence) : Prop :=
  ∃ requested final,
    outcome = inl (SequenceGeneratorException (SectionNotAfterEnd requested final)).

(** The two errors about the shape of the options. *)
Definition is_shape_error (outcome : exn + NoteSequence) : Prop :=
  ∃ got,
    outcome = inl (SequenceGeneratorException (AtMostOneInputSection got))
    ∨ outcome = inl (SequenceGeneratorException (OnlyOneGenerateSection got)).

(** ** Sample collaborators, to run the generator on *)

Definition floor (x : Qc) : Z := Qnum x / Z.pos (Qden x).

(** A track padded with empty steps, or cut, to [steps] events. *)
Definition resized (drums : DrumTrack) (steps : Z) : DrumTrack :=
  {| events := take (Z.to_nat steps)
                 (events drums ++ replicate (Z.to_nat steps) []);
     start_step := start_step drums |}.

(** Four steps per quarter; the subsequence keeps the notes that start in
    the range; no drums are found in any primer; the model generates
    silence. *)
Definition session : handler := λ c,
  match c return string + result c with
  | extract_subsequence None _ _ => inl "AttributeError"
  | extract_subsequence (Some sequence) start_time end_time =>
      inr {| notes := filter (λ n, (start_time ≤ Note.start_time n)%Qc
                                   ∧ (Note.start_time n < end_time)%Qc)
                        (notes sequence);
             tempos := tempos sequence;
             total_time := total_time sequence |}
  | seconds_to_steps seconds qpm =>
      inr (floor (seconds * qpm * Qc_of_Z 4 / Qc_of_Z 60)%Qc)
  | quantize_note_sequence sequence _ => inr sequence
  | extract_drum_tracks _ _ _ _ => inr []
  | set_length drums steps => inr (resized drums steps)
  | generate_drum_track num_steps primer_drums _ =>
      inr (resized primer_drums num_steps)
  | to_sequence drums qpm =>
      inr {| notes := [];
             tempos := [{| Tempo.time := 0%Qc; Tempo.qpm := qpm |}];
             total_time :=
               (Qc_of_Z (start_step drums + Z.of_nat (length (events drums)))
                * Qc_of_Z 60 / (qpm * Qc_of_Z 4))%Qc |}
  end.

Definition seconds (n : Z) : Qc := Qc_of_Z n.

(** A captured call: one note held from second 0 to second 2 at 120 qpm. *)
Definition call_phrase : NoteSequence :=
  {| notes := [{| Note.pitch := 36; Note.velocity := 100;
                  Note.start_time := seconds 0; Note.end_time := seconds 2 |}];
     tempos := [{| Tempo.time := seconds 0; Tempo.qpm := Qc_of_Z 120 |}];
     total_time := seconds 2 |}.

(** The same call without a tempo. *)
Definition call_phrase_without_tempo : NoteSequence :=
  {| notes := notes call_phrase; tempos := []; total_time := seconds 2 |}.

(** Respond in [2, 4), right at the end of the call, with the whole input
    as primer. *)
Definition respond_at_end_of_call : GeneratorOptions :=
  {| input_sections := [];
     generate_sections :=
       [{| SequenceSection.start_time := seconds 2;
           SequenceSection.end_time := seconds 4 |}];
     args := ∅ |}.

(** The same, with the call span [0, 2) as input section. *)
Definition respond_to_call_span : GeneratorOptions :=
  {| input_sections :=
       [{| SequenceSection.start_time := seconds 0;
           SequenceSection.end_time := seconds 2 |}];
     generate_sections :=
       [{| SequenceSection.start_time := seconds 2;
           SequenceSection.end_time := seconds 4 |}];
     args := ∅ |}.

(** Respond in [3, 5), one second after the end of the call. *)
Definition respond_after_call : GeneratorOptions :=
  {| input_sections := [];
     generate_sections :=
       [{| SequenceSection.start_time := seconds 3;
           SequenceSection.end_time := seconds 5 |}];
     args := {[ "temperature" := ArgValue.Float (Qc_of_Z 1);
                "beam_size" := ArgValue.Int 2;
                "volume" := ArgValue.Int 11 ]} |}.

Definition generator : DrumsRnnSequenceGenerator := {| steps_per_quarter := 4 |}.

(** ** Vocabulary for the calls of a run *)

(** The calls of the model among the calls of a run, with their arguments. *)
Definition model_calls (calls : list call)
    : list (Z * DrumTrack * gmap string pyval) :=
  omap (λ c, match c with
             | generate_drum_track num_steps primer_drums kwargs =>
                 Some (num_steps, primer_drums, kwargs)
             | _ => None
             end) calls.

(** Collaborators as [session], but two drum tracks are extracted from
    every primer. *)
Definition crowded : handler := λ c,
  match c return string + result c with
  | extract_drum_tracks _ _ _ _ =>
      inr [ {| events := [[36]]; start_step := 0 |};
            {| events := [[38]]; start_step := 0 |} ]
  | c => session c
  end.

(** An input without notes. *)
Definition silence : NoteSequence :=
  {| notes := [];
     tempos := [{| Tempo.time := seconds 0; Tempo.qpm := Qc_of_Z 120 |}];
     total_time := seconds 0 |}.

(** Respond in [0, 2), from the very start. *)
Definition respond_from_start : GeneratorOptions :=
  {| input_sections := [];
     generate_sections :=
       [{| SequenceSection.start_time := seconds 0;
           SequenceSection.end_time := seconds 2 |}];
     args := ∅ |}.

End DrumsRnn.

(** * Properties *)

(** ** Python helpers *)

Example py_split_two : py_split "," "a.mag,b.mag" = ["a.mag"; "b.mag"].
Proof. reflexivity. Qed.

Example py_split_empty : py_split "," EmptyString = [EmptyString].
Proof. reflexivity. Qed.

Example py_split_trailing : py_split "," "a," = ["a"; EmptyString].
Proof. reflexivity. Qed.

Lemma py_split_nonempty sep s : py_split sep s ≠ [].
Proof.
  destruct s as [|c rest]; simpl; [done|].
  destruct (Ascii.eqb c sep); [done|].
  by destruct (py_split sep rest).
Qed.

Lemma count_None_boundary (a b : option Z) :
  count_None [a; b] = 1%nat ↔
  (is_Some a ∧ b = None) ∨ (a = None ∧ is_Some b).
Proof.
  destruct a, b; cbv; split; intros H; try done.
  - destruct H as [[_ ?]|[? _]]; done.
  - left. eauto.
  - right. eauto.
  - destruct H as [[[? ?] _]|[_ [? ?]]]; done.
Qed.

Section MagentaMidiProperties.
Import MagentaMidi.
Local Open Scope py_scope.

Example render_after_bars :
  render (AfterBars 2) = "After 2 bars (4 beats), Magenta will play its response.".
Proof. reflexivity. Qed.

(** *** The monad *)

Lemma bind_inr {A B} (m : M A) (k : A → M B) a l :
  m = (inr a, l) → bind m k = ((k a).1, l ++ (k a).2).
Proof. by intros ->. Qed.

Lemma bind_inl {A B} (m : M A) (k : A → M B) e l :
  m = (inl e, l) → bind m k = (inl e, l).
Proof. by intros ->. Qed.

Lemma bind_emit {B} (e : event) (k : unit → M B) :
  bind (emit e) k = ((k ()).1, e :: (k ()).2).
Proof. done. Qed.

(** *** [_validate_flags] *)

(** The four checks, in the order of the source. *)
Lemma validate_flags_cases w f :
  _validate_flags w f =
    if list_ports f then
      (inr false, [Print (InputPorts (get_available_input_ports w));
                   Print (OutputPorts (get_available_output_ports w))])
    else match bundle_files f with
         | None => (inr false, [Print BundleFilesMustBeSpecified])
         | Some files =>
             if decide (count_None [end_call_control_number f; phrase_bars f] ≠ 1%nat)
             then (inr false, [Print ExactlyOneBoundary])
             else if decide ((1 < length (py_split "," files))%nat
                             ∧ generator_select_control_number f = None)
             then (inr false, [Print MultipleBundlesNeedSelect])
             else (inr true, [])
         end.
Proof.
  unfold _validate_flags.
  destruct (list_ports f); [done|].
  destruct (bundle_files f) as [files|]; [|done].
  repeat case_decide; done.
Qed.

(** It never raises, and it only prints. *)
Lemma validate_flags_total w f :
  ∃ b, (_validate_flags w f).1 = inr b.
Proof.
  rewrite validate_flags_cases.
  destruct (list_ports f); [eauto|].
  destruct (bundle_files f); [|eauto].
  repeat case_decide; eauto.
Qed.

Lemma validate_flags_prints w f e :
  e ∈ (_validate_flags w f).2 → ∃ m, e = Print m.
Proof.
  rewrite validate_flags_cases.
  destruct (list_ports f); [|destruct (bundle_files f); [repeat case_decide|]];
    simpl; rewrite ?elem_of_cons, ?elem_of_nil; naive_solver.
Qed.

Lemma validate_flags_true w f :
  (_validate_flags w f).1 = inr true ↔
  list_ports f = false ∧
  ∃ files, bundle_files f = Some files ∧
    count_None [end_call_control_number f; phrase_bars f] = 1%nat ∧
    ¬ ((1 < length (py_split "," files))%nat
       ∧ generator_select_control_number f = None).
Proof.
  rewrite validate_flags_cases.
  destruct (list_ports f); [naive_solver|].
  destruct (bundle_files f) as [files|]; [|naive_solver].
  repeat case_decide; naive_solver.
Qed.

(** *** [main] when the flags are rejected *)

Lemma main_rejected w f :
  (_validate_flags w f).1 = inr false →
  main w f = (inr (), SetVerbosity (log f) :: (_validate_flags w f).2).
Proof.
  intros H. unfold main. rewrite bind_emit.
  destruct (_validate_flags w f) as [r l] eqn:E. simpl in H. subst r.
  rewrite (bind_inr _ _ false l) by done. simpl.
  by rewrite app_nil_r.
Qed.

(** *** Loading the generators *)

Lemma load_generator_cases w f bundle_file :
  _load_generator_from_bundle_file w f bundle_file =
    match read_bundle_file w bundle_file with
    | None => (inl (AttributeError "bundle_file"), [])
    | Some bundle =>
        match _GENERATOR_MAP w !! generator_details_id bundle with
        | None => (inl (AttributeError "bundle_file"), [])
        | Some make_generator =>
            (inr (Some (make_generator None bundle)),
             [Initialize (make_generator None bundle);
              Print (LoadedGenerator (generator_details_id bundle) bundle_file)])
        end
    end.
Proof.
  unfold _load_generator_from_bundle_file.
  destruct (read_bundle_file w bundle_file) as [bundle|]; [|done].
  by destruct (_GENERATOR_MAP w !! generator_details_id bundle).
Qed.

Lemma loads_spec w bundle_file :
  loads w bundle_file = true ↔
  ∃ bundle make_generator,
    read_bundle_file w bundle_file = Some bundle ∧
    _GENERATOR_MAP w !! generator_details_id bundle = Some make_generator.
Proof.
  unfold loads. destruct (read_bundle_file w bundle_file) as [bundle|].
  - rewrite bool_decide_eq_true. unfold is_Some. naive_solver.
  - naive_solver.
Qed.

(** Every bundle loads: the loop ends with one generator per file. *)
Lemma load_generators_ok w f files generators :
  forallb (loads w) files = true →
  ∃ loaded log,
    load_generators w f files generators = (inr (Some (generators ++ loaded)), log)
    ∧ length loaded = length files
    ∧ Forall load_event log.
Proof.
  revert generators. induction files as [|file files IH]; intros generators H.
  - exists [], []. by rewrite app_nil_r.
  - simpl in H. apply andb_prop in H as [Hfile Hfiles].
    apply loads_spec in Hfile as (bundle & make_generator & Hread & Hmap).
    destruct (IH (generators ++ [make_generator None bundle]) Hfiles)
      as (loaded & log & Hrun & Hlen & Hlog).
    exists (make_generator None bundle :: loaded),
           ([Initialize (make_generator None bundle);
             Print (LoadedGenerator (generator_details_id bundle) file)] ++ log).
    split; [|split].
    + simpl load_generators. erewrite bind_inr;
        [|by rewrite load_generator_cases, Hread, Hmap].
      cbv beta iota. rewrite Hrun. simpl. by rewrite <- app_assoc.
    + simpl. by rewrite Hlen.
    + repeat constructor; done.
Qed.

(** Some bundle does not load: the loop is left by the [AttributeError] of
    [FLAGS.bundle_file], after the events of the loads before it. *)
Lemma load_generators_fails w f files generators :
  forallb (loads w) files = false →
  ∃ log,
    load_generators w f files generators = (inl (AttributeError "bundle_file"), log)
    ∧ Forall load_event log.
Proof.
  revert generators. induction files as [|file files IH]; intros generators H.
  - done.
  - simpl load_generators. rewrite load_generator_cases.
    destruct (read_bundle_file w file) as [bundle|] eqn:Hread;
      [|by exists []].
    destruct (_GENERATOR_MAP w !! generator_details_id bundle)
      as [make_generator|] eqn:Hmap; [|by exists []].
    assert (forallb (loads w) files = false) as Hfiles.
    { simpl in H. apply andb_false_iff in H as [H|H]; [|done].
      unfold loads in H. rewrite Hread, Hmap in H.
      by rewrite bool_decide_eq_false in H; destruct H. }
    destruct (IH (generators ++ [make_generator None bundle]) Hfiles)
      as (log & Hrun & Hlog).
    eexists. erewrite bind_inr by done. cbv beta iota. rewrite Hrun. simpl.
    split; [done|]. repeat constructor; done.
Qed.

(** *** The instructions and the sleep loop *)

Lemma print_instructions_ok f :
  is_Some (phrase_bars f) ∨ is_Some (end_call_control_number f) →
  ∃ log, _print_instructions f = (inr (), log) ∧ Forall instruction_event log.
Proof.
  intros H. unfold _print_instructions.
  destruct (start_call_control_number f), (phrase_bars f) as [bars|],
    (end_call_control_number f) as [c|];
    try (eexists; split; [reflexivity|repeat constructor]).
  by destruct H as [[? ?]|[? ?]].
  by destruct H as [[? ?]|[? ?]].
Qed.

Lemma sleep_until_interrupt_ok n :
  sleep_until_interrupt n = (inr (), replicate n (Sleep 1)).
Proof.
  induction n as [|n IH]; [done|].
  simpl. rewrite bind_emit, IH. done.
Qed.

(** *** [main] when the flags are accepted *)

(** Every bundle loads: [main] runs to the end of the interaction. *)
Lemma main_accepted w f files :
  (_validate_flags w f).1 = inr true →
  bundle_files f = Some files →
  forallb (loads w) (py_split "," files) = true →
  ∃ generators setup instructions,
    length generators = length (py_split "," files) ∧
    Forall load_event setup ∧ Forall instruction_event instructions ∧
    main w f =
      (inr (),
       [SetVerbosity (log f)] ++ setup ++ notices w f
       ++ [OpenMidiHub (the_hub f); NewInteraction (the_interaction f generators)]
       ++ instructions ++ [Start] ++ replicate (interrupt_after w) (Sleep 1)
       ++ [Stop; Print InteractionStopped]).
Proof.
  intros Hvalid Hfiles Hloads.
  destruct (load_generators_ok w f _ [] Hloads) as (generators & setup & Hload & Hlen & Hsetup).
  destruct (print_instructions_ok f) as (instructions & Hprint & Hinstructions).
  { apply validate_flags_true in Hvalid as (_ & files' & _ & Hcount & _).
    apply count_None_boundary in Hcount. naive_solver. }
  exists generators, setup, instructions.
  split; [done|]. split; [done|]. split; [done|].
  assert (_validate_flags w f = (inr true, [])) as Hv.
  { rewrite validate_flags_cases in Hvalid |- *.
    destruct (list_ports f); [done|]. rewrite Hfiles in *.
    repeat case_decide; done. }
  unfold main. rewrite Hfiles, Hv, Hload, Hprint, sleep_until_interrupt_ok.
  unfold notices, the_interaction, the_hub, call_signal.
  repeat case_decide; reflexivity.
Qed.

(** Some bundle does not load: [main] is left by the [AttributeError]. *)
Lemma main_load_fails w f files :
  (_validate_flags w f).1 = inr true →
  bundle_files f = Some files →
  forallb (loads w) (py_split "," files) = false →
  ∃ setup,
    Forall load_event setup ∧
    main w f = (inl (AttributeError "bundle_file"), SetVerbosity (log f) :: setup).
Proof.
  intros Hvalid Hfiles Hloads.
  destruct (load_generators_fails w f _ [] Hloads) as (setup & Hload & Hsetup).
  exists setup. split; [done|].
  assert (_validate_flags w f = (inr true, [])) as Hv.
  { rewrite validate_flags_cases in Hvalid |- *.
    destruct (list_ports f); [done|]. rewrite Hfiles in *.
    repeat case_decide; done. }
  unfold main. rewrite Hfiles, Hv, Hload. reflexivity.
Qed.

(** The three ways [main] ends. *)
Lemma main_cases w f :
  ((_validate_flags w f).1 = inr false ∧
   main w f = (inr (), SetVerbosity (log f) :: (_validate_flags w f).2))
  ∨ (∃ files setup,
       (_validate_flags w f).1 = inr true ∧ bundle_files f = Some files ∧
       forallb (loads w) (py_split "," files) = false ∧
       Forall load_event setup ∧
       main w f = (inl (AttributeError "bundle_file"), SetVerbosity (log f) :: setup))
  ∨ (∃ files generators setup instructions,
       (_validate_flags w f).1 = inr true ∧ bundle_files f = Some files ∧
       forallb (loads w) (py_split "," files) = true ∧
       Forall load_event setup ∧ Forall instruction_event instructions ∧
       main w f =
         (inr (),
          [SetVerbosity (log f)] ++ setup ++ notices w f
          ++ [OpenMidiHub (the_hub f); NewInteraction (the_interaction f generators)]
          ++ instructions ++ [Start] ++ replicate (interrupt_after w) (Sleep 1)
          ++ [Stop; Print InteractionStopped])).
Proof.
  destruct (validate_flags_total w f) as [[|] Hvalid].
  - pose proof Hvalid as (_ & files & Hfiles & _)%validate_flags_true.
    destruct (forallb (loads w) (py_split "," files)) eqn:Hloads.
    + right; right.
      destruct (main_accepted w f files) as (gs & setup & ins & _ & ? & ? & ?); [done..|].
      by exists files, gs, setup, ins.
    + right; left.
      destruct (main_load_fails w f files) as (setup & ? & ?); [done..|].
      by exists files, setup.
  - left. split; [done|]. by apply main_rejected.
Qed.

(** Membership in the log of [main], one segment at a time. *)
Ltac in_log H :=
  repeat first
    [ apply elem_of_app in H as [H|H]
    | apply elem_of_cons in H as [H|H]
    | apply elem_of_nil in H; destruct H
    | match type of H with _ ∈ (if ?c then _ else _) => destruct c end ].

Lemma not_load_event (x : event) setup :
  Forall load_event setup → x ∈ setup → load_event x.
Proof. intros H Hx. by eapply Forall_forall in H. Qed.

Lemma not_instruction_event (x : event) instructions :
  Forall instruction_event instructions → x ∈ instructions → instruction_event x.
Proof. intros H Hx. by eapply Forall_forall in H. Qed.

Lemma elem_of_notices w f e :
  e ∈ notices w f ↔
  (e = Print (VirtualInput (input_port f))
   ∧ input_port f ∉ get_available_input_ports w)
  ∨ (e = Print (VirtualOutput (output_port f))
     ∧ output_port f ∉ get_available_output_ports w).
Proof.
  unfold notices. rewrite elem_of_app.
  repeat case_decide; rewrite ?list_elem_of_singleton, ?elem_of_nil; tauto.
Qed.

(** The interaction is started only on the third way. *)
Lemma main_starts w f :
  Start ∈ (main w f).2 →
  ∃ files, (_validate_flags w f).1 = inr true ∧ bundle_files f = Some files ∧
           forallb (loads w) (py_split "," files) = true.
Proof.
  intros H.
  destruct (main_cases w f) as
    [[Hv Hm]|[(files & setup & Hv & Hf & Hl & Hs & Hm)
             |(files & gs & setup & ins & Hv & Hf & Hl & Hs & Hi & Hm)]].
  - rewrite Hm in H. simpl in H. apply elem_of_cons in H as [H|H]; [done|].
    by apply validate_flags_prints in H as [m Hm'].
  - rewrite Hm in H. simpl in H. apply elem_of_cons in H as [H|H]; [done|].
    by apply (not_load_event _ _ Hs) in H.
  - eauto.
Qed.

(** Accepted flags and loadable bundles: the interaction is constructed
    and started. *)
Lemma main_constructs_and_starts w f files :
  (_validate_flags w f).1 = inr true →
  bundle_files f = Some files →
  forallb (loads w) (py_split "," files) = true →
  ∃ generators,
    length generators = length (py_split "," files)
    ∧ NewInteraction (the_interaction f generators) ∈ (main w f).2
    ∧ Start ∈ (main w f).2.
Proof.
  intros Hv Hf Hl.
  destruct (main_accepted w f files Hv Hf Hl)
    as (gs & setup & ins & Hlen & _ & _ & Hm).
  exists gs. split; [done|]. rewrite Hm. cbn [snd].
  split; rewrite !elem_of_app.
  - right; right; right; left. apply list_elem_of_further, list_elem_of_here.
  - do 5 right. left. apply list_elem_of_here.
Qed.

Example main_with_default_flags :
  main studio default_flags
  = (inr (), [SetVerbosity "WARN"; Print BundleFilesMustBeSpecified]).
Proof. reflexivity. Qed.

Example main_with_end_call_signal :
  (main studio signal_flags).1 = inr ()
  ∧ Print (EndCallWith 2) ∈ (main studio signal_flags).2
  ∧ Start ∈ (main studio signal_flags).2.
Proof.
  split; [reflexivity|]. split; vm_compute.
  - do 9 apply list_elem_of_further. apply list_elem_of_here.
  - do 14 apply list_elem_of_further. apply list_elem_of_here.
Qed.

(** *** Boundary policy *)




(** *** More than one generator *)

(** C4, the counterexample: with [--list_ports], two bundle files and no
    selection control number, only the ports are listed; no error is
    reported. *)
Lemma list_ports_reports_no_error :
  bundle_files list_ports_flags = Some "a.mag,b.mag"
  ∧ (1 < length (py_split "," "a.mag,b.mag"))%nat
  ∧ generator_select_control_number list_ports_flags = None
  ∧ _validate_flags studio list_ports_flags
    = (inr false, [Print (InputPorts ["magenta_in"]); Print (OutputPorts [])])
  ∧ ¬ reports_error (_validate_flags studio list_ports_flags).2.
Proof.
  split; [reflexivity|]. split; [simpl; lia|]. split; [reflexivity|].
  split; [reflexivity|].
  intros (m & Hm & Herr). simpl in Hm.
  in_log Hm; inversion Hm; subst m; discriminate Herr.
Qed.

(** C4, as amended: with more than one bundle file and no selection
    control number, [_validate_flags] returns False and [main] never starts
    the interaction; unless ports are being listed an error is reported,
    and it is the error about multiple bundle files when exactly one
    boundary is specified.  With a single bundle file the missing selection
    control number is never reported, and the flags are accepted when the
    other checks pass. *)
Theorem validate_flags_multiple_bundles w f files :
  bundle_files f = Some files →
  generator_select_control_number f = None →
  ((1 < length (py_split "," files))%nat →
     (_validate_flags w f).1 = inr false
     ∧ (Start ∉ (main w f).2)
     ∧ (list_ports f = false → reports_error (_validate_flags w f).2)
     ∧ (list_ports f = false → exactly_one_boundary f →
          (_validate_flags w f).2 = [Print MultipleBundlesNeedSelect]))
  ∧ (length (py_split "," files) = 1%nat →
       (Print MultipleBundlesNeedSelect ∉ (_validate_flags w f).2)
       ∧ (list_ports f = false → exactly_one_boundary f →
            _validate_flags w f = (inr true, []))).
Proof.
  intros Hf Hsel. split.
  - intros Hlen.
    assert ((_validate_flags w f).1 = inr false) as Hfalse.
    { destruct (validate_flags_total w f) as [[|] Hb]; [|done].
      apply validate_flags_true in Hb as (_ & files' & Hf' & _ & Hm).
      destruct Hm. split; [|done]. congruence. }
    split; [done|]. split; [|split].
    + intros (files' & Hv & _)%main_starts. congruence.
    + intros Hl. rewrite validate_flags_cases, Hl, Hf.
      case_decide.
      * exists ExactlyOneBoundary. split; [apply list_elem_of_here|done].
      * rewrite decide_True by done.
        exists MultipleBundlesNeedSelect. split; [apply list_elem_of_here|done].
    + intros Hl Hxor%count_None_boundary.
      rewrite validate_flags_cases, Hl, Hf.
      rewrite decide_False by (intros Hc; by apply Hc).
      by rewrite decide_True.
  - intros Hlen. split.
    + rewrite validate_flags_cases, Hf.
      destruct (list_ports f).
      { intros Hin. in_log Hin; discriminate Hin. }
      case_decide.
      { intros Hin. in_log Hin; discriminate Hin. }
      rewrite decide_False by lia. apply not_elem_of_nil.
    + intros Hl Hxor%count_None_boundary.
      rewrite validate_flags_cases, Hl, Hf.
      rewrite decide_False by (intros Hc; by apply Hc).
      by rewrite decide_False by lia.
Qed.

Lemma validate_flags_multiple_bundles_witness :
  (_validate_flags studio two_bundles_flags).1 = inr false
  ∧ (Start ∉ (main studio two_bundles_flags).2)
  ∧ (_validate_flags studio two_bundles_flags).2 = [Print MultipleBundlesNeedSelect].
Proof.
  destruct (validate_flags_multiple_bundles studio two_bundles_flags "a.mag,b.mag")
    as [H _]; [reflexivity|reflexivity|].
  destruct H as (H1 & H2 & _ & H3); [simpl; lia|].
  split; [exact H1|]. split; [exact H2|].
  apply H3; [reflexivity|]. right. split; [reflexivity|]. by exists 2.
Defined.

(** *** Bundles that do not load *)

(** C5, at the failing input: when the only bundle file does not parse, or
    names a generator missing from the generator map, [main] prints no
    message and does not return: it is left by the [AttributeError] raised
    by [FLAGS.bundle_file], a flag that is not defined. *)
Theorem main_on_bundle_that_does_not_load :
  main studio broken_bundle_flags
    = (inl (AttributeError "bundle_file"), [SetVerbosity "WARN"])
  ∧ main studio unknown_bundle_flags
    = (inl (AttributeError "bundle_file"), [SetVerbosity "WARN"]).
Proof. split; reflexivity. Qed.

(** On every input: a bundle that does not load ends [main] by that
    exception, and the two failure messages are never printed. *)
Lemma main_never_reports_load_failure w f :
  (∀ files, (_validate_flags w f).1 = inr true → bundle_files f = Some files →
            forallb (loads w) (py_split "," files) = false →
            (main w f).1 = inl (AttributeError "bundle_file"))
  ∧ (∀ file, Print (FailedToParse file) ∉ (main w f).2)
  ∧ (∀ id file, Print (UnrecognizedId id file) ∉ (main w f).2).
Proof.
  split; [|split].
  - intros files Hv Hf Hl.
    destruct (main_load_fails w f files) as (setup & _ & ->); done.
  - intros file H.
    destruct (main_cases w f) as
      [[Hv Hm]|[(files & setup & Hv & Hf & Hl & Hs & Hm)
               |(files & gs & setup & ins & Hv & Hf & Hl & Hs & Hi & Hm)]];
      rewrite Hm in H; cbn [snd] in H.
    + apply elem_of_cons in H as [H|H]; [done|].
      revert H. rewrite validate_flags_cases.
      destruct (list_ports f); [|destruct (bundle_files f); [repeat case_decide|]];
        intros Hin; in_log Hin; discriminate Hin.
    + apply elem_of_cons in H as [H|H]; [done|].
      by apply (not_load_event _ _ Hs) in H.
    + in_log H; try discriminate H.
      * by apply (not_load_event _ _ Hs) in H.
      * by apply (not_instruction_event _ _ Hi) in H.
      * apply elem_of_replicate in H as [H _]; discriminate H.
  - intros id file H.
    destruct (main_cases w f) as
      [[Hv Hm]|[(files & setup & Hv & Hf & Hl & Hs & Hm)
               |(files & gs & setup & ins & Hv & Hf & Hl & Hs & Hi & Hm)]];
      rewrite Hm in H; cbn [snd] in H.
    + apply elem_of_cons in H as [H|H]; [done|].
      revert H. rewrite validate_flags_cases.
      destruct (list_ports f); [|destruct (bundle_files f); [repeat case_decide|]];
        intros Hin; in_log Hin; discriminate Hin.
    + apply elem_of_cons in H as [H|H]; [done|].
      by apply (not_load_event _ _ Hs) in H.
    + in_log H; try discriminate H.
      * by apply (not_load_event _ _ Hs) in H.
      * by apply (not_instruction_event _ _ Hi) in H.
      * apply elem_of_replicate in H as [H _]; discriminate H.
Qed.

(** *** Ports *)

(** C6: once the flags are accepted and every bundle has loaded, [main]
    opens the hub on the configured input and output port names, whether
    or not the system has ports of these names, and ends without an
    exception; the notice about a virtual input (output) port is printed
    exactly when the input (output) port name is not among the available
    input (output) ports. *)
Theorem main_opens_hub_on_configured_ports w f files :
  (_validate_flags w f).1 = inr true →
  bundle_files f = Some files →
  forallb (loads w) (py_split "," files) = true →
  (main w f).1 = inr ()
  ∧ (∀ hub, OpenMidiHub hub ∈ (main w f).2 ↔
            hub = {| hub_input_port := input_port f;
                     hub_output_port := output_port f;
                     hub_texture := MONOPHONIC |})
  ∧ (∀ port, Print (VirtualInput port) ∈ (main w f).2 ↔
             port = input_port f ∧ input_port f ∉ get_available_input_ports w)
  ∧ (∀ port, Print (VirtualOutput port) ∈ (main w f).2 ↔
             port = output_port f ∧ output_port f ∉ get_available_output_ports w).
Proof.
  intros Hv Hf Hl.
  destruct (main_accepted w f files Hv Hf Hl) as (gs & setup & ins & _ & Hs & Hi & Hm).
  rewrite Hm. cbn [fst snd]. split; [done|].
  split; [|split].
  - intros hub. split.
    + intros H. in_log H; try discriminate H.
      * by apply (not_load_event _ _ Hs) in H.
      * by inversion H.
      * by apply (not_instruction_event _ _ Hi) in H.
      * apply elem_of_replicate in H as [H _]; discriminate H.
    + intros ->. rewrite !elem_of_app. right; right; right; left.
      apply list_elem_of_here.
  - intros port. split.
    + intros H. apply elem_of_app in H as [H|H]; [in_log H; discriminate H|].
      apply elem_of_app in H as [H|H]; [by apply (not_load_event _ _ Hs) in H|].
      apply elem_of_app in H as [H|H].
      { apply elem_of_notices in H as [[H ?]|[H _]]; [|discriminate H].
        by inversion H. }
      in_log H; try discriminate H.
      * by apply (not_instruction_event _ _ Hi) in H.
      * apply elem_of_replicate in H as [H _]; discriminate H.
    + intros [-> Hport]. rewrite !elem_of_app. right; right; left.
      apply elem_of_notices. by left.
  - intros port. split.
    + intros H. apply elem_of_app in H as [H|H]; [in_log H; discriminate H|].
      apply elem_of_app in H as [H|H]; [by apply (not_load_event _ _ Hs) in H|].
      apply elem_of_app in H as [H|H].
      { apply elem_of_notices in H as [[H _]|[H ?]]; [discriminate H|].
        by inversion H. }
      in_log H; try discriminate H.
      * by apply (not_instruction_event _ _ Hi) in H.
      * apply elem_of_replicate in H as [H _]; discriminate H.
    + intros [-> Hport]. rewrite !elem_of_app. right; right; left.
      apply elem_of_notices. by right.
Qed.

Lemma main_opens_hub_on_configured_ports_witness :
  (main studio two_bar_flags).1 = inr ()
  ∧ OpenMidiHub {| hub_input_port := "magenta_in";
                   hub_output_port := "magenta_out";
                   hub_texture := MONOPHONIC |} ∈ (main studio two_bar_flags).2
  ∧ (Print (VirtualInput "magenta_in") ∉ (main studio two_bar_flags).2)
  ∧ Print (VirtualOutput "magenta_out") ∈ (main studio two_bar_flags).2.
Proof.
  destruct (main_opens_hub_on_configured_ports studio two_bar_flags "basic_rnn.mag")
    as (H1 & H2 & H3 & H4); [reflexivity..|].
  split; [exact H1|]. split; [by apply H2|]. split.
  - intros [_ Hin]%H3. apply Hin. apply list_elem_of_here.
  - apply H4. split; [reflexivity|]. apply not_elem_of_nil.
Defined.

(** *** Call signals *)

(** Modelled matcher: a control signal pinned to a value matches exactly
    the control changes of that number and that value. *)
Lemma matches_pinned_control c v msg :
  matches (ControlSignal c (Some v)) msg = true ↔ ∃ t, msg = ControlChange c v t.
Proof.
  destruct msg as [| |number value t]; simpl.
  - naive_solver.
  - naive_solver.
  - rewrite andb_true_iff, !bool_decide_eq_true. naive_solver.
Qed.

(** C8: whatever interaction [main] constructs, a configured
    [start_call_control_number] (resp. [end_call_control_number]) has become
    the control signal of that number with value 0, not a wildcard: the
    messages it matches are exactly the control changes with that number
    and value 0. *)
Theorem call_signals_are_pinned_to_zero w f args :
  NewInteraction args ∈ (main w f).2 →
  (∀ c, start_call_control_number f = Some c →
        arg_start_call_signal args = Some (ControlSignal c (Some 0))
        ∧ ∀ msg, matches (ControlSignal c (Some 0)) msg = true
                 ↔ ∃ t, msg = ControlChange c 0 t)
  ∧ (∀ c, end_call_control_number f = Some c →
          arg_end_call_signal args = Some (ControlSignal c (Some 0))
          ∧ ∀ msg, matches (ControlSignal c (Some 0)) msg = true
                   ↔ ∃ t, msg = ControlChange c 0 t).
Proof.
  intros H.
  assert (∃ gs, args = the_interaction f gs) as [gs ->].
  { destruct (main_cases w f) as
      [[Hv Hm]|[(files & setup & Hv & Hf & Hl & Hs & Hm)
               |(files & gs & setup & ins & Hv & Hf & Hl & Hs & Hi & Hm)]];
      rewrite Hm in H; cbn [snd] in H.
    - apply elem_of_cons in H as [H|H]; [done|].
      by apply validate_flags_prints in H as [m Hm'].
    - apply elem_of_cons in H as [H|H]; [done|].
      by apply (not_load_event _ _ Hs) in H.
    - exists gs. in_log H; try discriminate H.
      + by apply (not_load_event _ _ Hs) in H.
      + by inversion H.
      + by apply (not_instruction_event _ _ Hi) in H.
      + apply elem_of_replicate in H as [H _]; discriminate H. }
  split; intros c Hc; simpl; rewrite Hc; (split; [done|]);
    intros msg; apply matches_pinned_control.
Qed.

Lemma call_signals_are_pinned_to_zero_witness :
  matches (ControlSignal 1 (Some 0)) (ControlChange 1 0 0%Qc) = true
  ∧ matches (ControlSignal 1 (Some 0)) (ControlChange 1 127 0%Qc) = false.
Proof.
  pose proof (call_signals_are_pinned_to_zero studio two_bar_flags
    {| arg_hub := {| hub_input_port := "magenta_in";
                     hub_output_port := "magenta_out";
                     hub_texture := MONOPHONIC |};
       arg_generators := [make "basic_rnn" None {| generator_details_id := "basic_rnn" |}];
       arg_qpm := 90;
       arg_generator_select_control_number := None;
       arg_phrase_bars := Some 2;
       arg_start_call_signal := Some (ControlSignal 1 (Some 0));
       arg_end_call_signal := None;
       arg_temperature_control_number := None |}) as H.
  destruct H as [H _].
  { vm_compute. do 5 apply list_elem_of_further. apply list_elem_of_here. }
  destruct (H 1 eq_refl) as [_ Hm].
  split.
  - apply Hm. by exists 0%Qc.
  - reflexivity.
Defined.

(** ** Further properties of magenta_midi.py *)

(** *** Splitting the bundle files *)

Lemma py_split_length s : length (py_split "," s) = S (commas s).
Proof.
  induction s as [|c rest IH]; [done|].
  simpl. destruct (Ascii.eqb c ","); simpl.
  - by rewrite IH.
  - destruct (py_split "," rest); simpl in *; lia.
Qed.

Lemma py_join_cons_char c w ws :
  py_join "," (String c w :: ws) = String c (py_join "," (w :: ws)).
Proof. by destruct ws. Qed.

(** X1: [','.join(s.split(','))] is [s]: the bundle files are the pieces of the
    flag value between its commas, nothing trimmed and nothing dropped. *)
Theorem py_split_join s : py_join "," (py_split "," s) = s.
Proof.
  induction s as [|c rest IH]; [done|].
  simpl. destruct (Ascii.eqb_spec c ",") as [->|Hc].
  - pose proof (py_split_nonempty "," rest) as Hne.
    destruct (py_split "," rest) as [|w ws]; [done|].
    change (String "," (py_join "," (w :: ws)) = String "," rest).
    by rewrite IH.
  - destruct (py_split "," rest) as [|w ws] eqn:Hsplit.
    + by destruct (py_split_nonempty "," rest).
    + by rewrite py_join_cons_char, IH.
Qed.

(** X2: With ports not being listed, exactly one boundary and no selection
    control number, the flags are accepted exactly when the value of
    [--bundle_files] has no comma: every comma, a trailing one too, counts
    one more bundle file. *)
Theorem validate_flags_counts_commas w f files :
  list_ports f = false →
  bundle_files f = Some files →
  exactly_one_boundary f →
  generator_select_control_number f = None →
  length (py_split "," files) = S (commas files)
  ∧ ((_validate_flags w f).1 = inr true ↔ commas files = 0%nat).
Proof.
  intros Hl Hf Hxor%count_None_boundary Hsel.
  split; [apply py_split_length|].
  rewrite validate_flags_true, Hf. split.
  - intros (_ & files' & [= <-] & _ & Hm). rewrite py_split_length in Hm.
    destruct (commas files); [done|]. destruct Hm. split; [lia|done].
  - intros H0. split; [done|]. exists files. split; [done|].
    split; [done|]. rewrite py_split_length, H0. intros [? _]. lia.
Qed.

Lemma validate_flags_counts_commas_witness :
  length (py_split "," "a.mag,") = 2%nat
  ∧ (_validate_flags studio two_bundles_flags).1 ≠ inr true.
Proof.
  destruct (validate_flags_counts_commas studio two_bundles_flags "a.mag,b.mag")
    as [_ H]; [reflexivity|reflexivity| |reflexivity|].
  { right. split; [reflexivity|]. by exists 2. }
  split; [reflexivity|].
  intros Hv. apply H in Hv. discriminate Hv.
Defined.

(** *** The ways [main] ends *)

(** X3: With [--list_ports], whatever the other flags, [main] prints the two
    lists of ports and returns: no bundle is loaded, no hub is opened. *)
Theorem main_only_lists_ports w f :
  list_ports f = true →
  main w f
  = (inr (), [SetVerbosity (log f);
              Print (InputPorts (get_available_input_ports w));
              Print (OutputPorts (get_available_output_ports w))]).
Proof.
  intros Hl. rewrite main_rejected; rewrite validate_flags_cases, Hl; done.
Qed.

Lemma main_only_lists_ports_witness :
  main studio list_ports_flags
  = (inr (), [SetVerbosity "WARN"; Print (InputPorts ["magenta_in"]);
              Print (OutputPorts [])]).
Proof. exact (main_only_lists_ports studio list_ports_flags eq_refl). Defined.


(** *** The generators handed to the interaction *)

Lemma generator_of_Some w file g :
  generator_of w file = Some g ↔
  ∃ bundle make_generator,
    read_bundle_file w file = Some bundle
    ∧ _GENERATOR_MAP w !! generator_details_id bundle = Some make_generator
    ∧ g = make_generator None bundle.
Proof.
  unfold generator_of.
  destruct (read_bundle_file w file) as [bundle|] eqn:Hread; simpl.
  - destruct (_GENERATOR_MAP w !! generator_details_id bundle) as [mk|] eqn:Hmap;
      simpl.
    + split; [intros [= <-]; by exists bundle, mk|].
      intros (? & ? & ? & ? & ->). by simplify_eq.
    + split; [done|]. intros (? & ? & ? & ? & ->). by simplify_eq.
  - split; [done|]. intros (? & ? & ? & _). done.
Qed.

Lemma loads_generator_of w file :
  loads w file = true ↔ is_Some (generator_of w file).
Proof.
  rewrite loads_spec. unfold is_Some.
  setoid_rewrite generator_of_Some. naive_solver.
Qed.

(** The events of the loads of a list of files. *)
Lemma load_generators_mapM w f files generators loaded :
  mapM (generator_of w) files = Some loaded →
  ∃ log,
    load_generators w f files generators = (inr (Some (generators ++ loaded)), log)
    ∧ initialized log = loaded
    ∧ Forall load_event log.
Proof.
  revert generators loaded.
  induction files as [|file files IH]; intros generators loaded Hm.
  - injection Hm as <-. exists []. by rewrite app_nil_r.
  - apply mapM_Some in Hm.
    destruct loaded as [|g gs]; inversion Hm as [|? ? ? ? Hg Hgs]; subst.
    apply mapM_Some in Hgs.
    apply generator_of_Some in Hg as (bundle & make_generator & Hread & Hmap & ->).
    destruct (IH (generators ++ [make_generator None bundle]) gs Hgs)
      as (log & Hrun & Hinit & Hlog).
    eexists. split; [|split].
    + simpl load_generators. rewrite load_generator_cases, Hread, Hmap.
      unfold bind at 1. cbn [fst snd]. rewrite Hrun. cbn [fst snd].
      by rewrite <- app_assoc.
    + simpl. by rewrite Hinit.
    + repeat constructor; done.
Qed.

Lemma forallb_loads_mapM w files :
  forallb (loads w) files = true ↔ is_Some (mapM (generator_of w) files).
Proof.
  induction files as [|file files IH]; cbn [forallb].
  - split; [by eexists|done].
  - rewrite andb_true_iff, IH, loads_generator_of.
    unfold is_Some. split.
    + intros [[g Hg] [gs Hgs]]. exists (g :: gs).
      apply mapM_Some. constructor; [done|]. by apply mapM_Some.
    + intros [gs Hgs]. apply mapM_Some in Hgs.
      inversion Hgs as [|? g ? gs' Hg Hgs']; subst.
      split; [by exists g|]. exists gs'. by apply mapM_Some.
Qed.

(** [main] on accepted flags, with the generators named. *)
Lemma main_accepted_with w f files generators :
  (_validate_flags w f).1 = inr true →
  bundle_files f = Some files →
  mapM (generator_of w) (py_split "," files) = Some generators →
  ∃ setup instructions,
    initialized setup = generators ∧
    Forall load_event setup ∧ Forall instruction_event instructions ∧
    main w f =
      (inr (),
       [SetVerbosity (log f)] ++ setup ++ notices w f
       ++ [OpenMidiHub (the_hub f); NewInteraction (the_interaction f generators)]
       ++ instructions ++ [Start] ++ replicate (interrupt_after w) (Sleep 1)
       ++ [Stop; Print InteractionStopped]).
Proof.
  intros Hvalid Hfiles Hgens.
  destruct (load_generators_mapM w f _ [] _ Hgens) as (setup & Hload & Hinit & Hsetup).
  destruct (print_instructions_ok f) as (instructions & Hprint & Hinstructions).
  { apply validate_flags_true in Hvalid as (_ & files' & _ & Hcount & _).
    apply count_None_boundary in Hcount. naive_solver. }
  exists setup, instructions.
  split; [done|]. split; [done|]. split; [done|].
  assert (_validate_flags w f = (inr true, [])) as Hv.
  { rewrite validate_flags_cases in Hvalid |- *.
    destruct (list_ports f); [done|]. rewrite Hfiles in *.
    repeat case_decide; done. }
  unfold main. rewrite Hfiles, Hv, Hload, Hprint, sleep_until_interrupt_ok.
  unfold notices, the_interaction, the_hub, call_signal.
  repeat case_decide; reflexivity.
Qed.

(** What an interaction in the log of [main] was constructed from. *)
Lemma main_interaction w f args :
  NewInteraction args ∈ (main w f).2 →
  ∃ files generators,
    (_validate_flags w f).1 = inr true
    ∧ bundle_files f = Some files
    ∧ mapM (generator_of w) (py_split "," files) = Some generators
    ∧ args = the_interaction f generators.
Proof.
  intros H.
  destruct (main_cases w f) as
    [[Hv Hm]|[(files & setup & Hv & Hf & Hl & Hs & Hm)
             |(files & gs & setup & ins & Hv & Hf & Hl & Hs & Hi & Hm)]].
  - rewrite Hm in H; cbn [snd] in H.
    apply elem_of_cons in H as [H|H]; [done|].
    by apply validate_flags_prints in H as [m Hm'].
  - rewrite Hm in H; cbn [snd] in H.
    apply elem_of_cons in H as [H|H]; [done|].
    by apply (not_load_event _ _ Hs) in H.
  - clear Hm. apply forallb_loads_mapM in Hl as [generators Hgens].
    destruct (main_accepted_with w f files generators Hv Hf Hgens)
      as (setup' & ins' & _ & Hs' & Hi' & Hm).
    exists files, generators. split; [done|]. split; [done|]. split; [done|].
    rewrite Hm in H; cbn [snd] in H.
    in_log H; try discriminate H.
    + by apply (not_load_event _ _ Hs') in H.
    + by inversion H.
    + by apply (not_instruction_event _ _ Hi') in H.
    + apply elem_of_replicate in H as [H _]; discriminate H.
Qed.

(** X5: The generators of the interaction are those of the bundle files, one
    per file and in the order of [--bundle_files], each built by the entry
    of the generator map for the id of its bundle with no checkpoint. *)
Theorem main_hands_generators_in_order w f args :
  NewInteraction args ∈ (main w f).2 →
  ∃ files,
    bundle_files f = Some files
    ∧ length (arg_generators args) = length (py_split "," files)
    ∧ ∀ i file,
        py_split "," files !! i = Some file →
        ∃ bundle make_generator,
          read_bundle_file w file = Some bundle
          ∧ _GENERATOR_MAP w !! generator_details_id bundle = Some make_generator
          ∧ arg_generators args !! i = Some (make_generator None bundle).
Proof.
  intros (files & generators & _ & Hf & Hgens & ->)%main_interaction.
  exists files. split; [done|]. simpl.
  apply mapM_Some in Hgens. split; [symmetry; by eapply Forall2_length|].
  intros i file Hfile.
  destruct (Forall2_lookup_l _ _ _ _ _ Hgens Hfile) as (g & Hg & Hof).
  apply generator_of_Some in Hof as (bundle & make_generator & ? & ? & ->).
  by exists bundle, make_generator.
Qed.

Lemma main_hands_generators_in_order_witness :
  ∃ args,
    NewInteraction args ∈ (main studio selectable_flags).2
    ∧ arg_generators args
      = [make "basic_rnn" None {| generator_details_id := "basic_rnn" |};
         make "basic_rnn" None {| generator_details_id := "basic_rnn" |}].
Proof.
  eexists. split.
  - vm_compute. do 7 apply list_elem_of_further. apply list_elem_of_here.
  - match goal with
    | |- arg_generators ?a = _ =>
        assert (NewInteraction a ∈ (main studio selectable_flags).2) as Hin
          by (vm_compute; do 7 apply list_elem_of_further; apply list_elem_of_here)
    end.
    destruct (main_hands_generators_in_order studio selectable_flags _ Hin)
      as (files & _ & _ & _).
    reflexivity.
Defined.

(** *** The first bundle that does not load *)

Lemma load_generators_stops w f good bad rest generators loaded :
  mapM (generator_of w) good = Some loaded →
  generator_of w bad = None →
  ∃ log,
    load_generators w f (good ++ bad :: rest) generators
    = (inl (AttributeError "bundle_file"), log)
    ∧ initialized log = loaded.
Proof.
  intros Hgood Hbad. revert generators loaded Hgood.
  induction good as [|file good IH]; intros generators loaded Hgood.
  - injection Hgood as <-. exists []. split; [|done].
    simpl load_generators. rewrite load_generator_cases.
    unfold generator_of in Hbad.
    destruct (read_bundle_file w bad) as [bundle|]; [|done].
    simpl in Hbad.
    by destruct (_GENERATOR_MAP w !! generator_details_id bundle).
  - apply mapM_Some in Hgood.
    destruct loaded as [|g gs]; inversion Hgood as [|? ? ? ? Hg Hgs]; subst.
    apply mapM_Some in Hgs.
    apply generator_of_Some in Hg as (bundle & make_generator & Hread & Hmap & ->).
    destruct (IH (generators ++ [make_generator None bundle]) gs Hgs)
      as (log & Hrun & Hinit).
    eexists. split.
    + simpl load_generators. rewrite load_generator_cases, Hread, Hmap.
      unfold bind at 1. cbn [fst snd]. rewrite Hrun. reflexivity.
    + simpl. by rewrite Hinit.
Qed.

(** X6: Loading stops at the first bundle file that does not load: with the
    flags accepted, the generators initialized are exactly those of the
    files before it, in order; no generator of a later file is
    initialized, and [main] is left by the [AttributeError] of
    [FLAGS.bundle_file]. *)
Theorem main_stops_at_first_bad_bundle w f files good bad rest loaded :
  (_validate_flags w f).1 = inr true →
  bundle_files f = Some files →
  py_split "," files = good ++ bad :: rest →
  mapM (generator_of w) good = Some loaded →
  generator_of w bad = None →
  (main w f).1 = inl (AttributeError "bundle_file")
  ∧ initialized (main w f).2 = loaded.
Proof.
  intros Hvalid Hfiles Hsplit Hgood Hbad.
  destruct (load_generators_stops w f good bad rest [] loaded Hgood Hbad)
    as (log & Hrun & Hinit).
  assert (_validate_flags w f = (inr true, [])) as Hv.
  { rewrite validate_flags_cases in Hvalid |- *.
    destruct (list_ports f); [done|]. rewrite Hfiles in *.
    repeat case_decide; done. }
  unfold main. rewrite Hfiles, Hv, Hsplit, Hrun. by split.
Qed.

Lemma main_stops_at_first_bad_bundle_witness :
  (main studio four_bundles_flags).1 = inl (AttributeError "bundle_file")
  ∧ initialized (main studio four_bundles_flags).2
    = [make "basic_rnn" None {| generator_details_id := "basic_rnn" |};
       make "basic_rnn" None {| generator_details_id := "basic_rnn" |}].
Proof.
  exact (main_stops_at_first_bad_bundle studio four_bundles_flags
           "basic_rnn.mag,other.mag,broken.mag,last.mag"
           ["basic_rnn.mag"; "other.mag"] "broken.mag" ["last.mag"] _
           eq_refl eq_refl eq_refl eq_refl eq_refl).
Defined.

(** *** What the interaction is constructed with *)

(** X7: Whatever interaction [main] constructs has exactly one of an end-call
    signal and a number of phrase bars, at least one generator, and a
    generator selection control number whenever it has more than one
    generator; the hub it is given is monophonic and the tempo is the flag
    [qpm]. *)
Theorem main_constructs_consistent_interaction w f args :
  NewInteraction args ∈ (main w f).2 →
  ((is_Some (arg_end_call_signal args) ∧ arg_phrase_bars args = None)
   ∨ (arg_end_call_signal args = None ∧ is_Some (arg_phrase_bars args)))
  ∧ (1 ≤ length (arg_generators args))%nat
  ∧ ((1 < length (arg_generators args))%nat →
     is_Some (arg_generator_select_control_number args))
  ∧ hub_texture (arg_hub args) = MONOPHONIC
  ∧ arg_qpm args = qpm f.
Proof.
  intros (files & generators & Hv & Hf & Hgens & ->)%main_interaction.
  apply validate_flags_true in Hv as (_ & files' & Hf' & Hcount & Hmany).
  assert (files' = files) as -> by congruence.
  apply count_None_boundary in Hcount.
  apply mapM_Some, Forall2_length in Hgens.
  pose proof (py_split_nonempty "," files) as Hne.
  simpl. split; [|split; [|split; [|done]]].
  - unfold call_signal. destruct Hcount as [[[c ->] ->]|[-> [b ->]]].
    + left. split; [by eexists|done].
    + right. split; [done|by eexists].
  - rewrite <- Hgens. destruct (py_split "," files); [done|simpl; lia].
  - rewrite <- Hgens. intros Hlen.
    destruct (generator_select_control_number f); [by eexists|].
    destruct Hmany. by split.
Qed.

Lemma main_constructs_consistent_interaction_witness :
  ∃ args,
    NewInteraction args ∈ (main studio selectable_flags).2
    ∧ (1 < length (arg_generators args))%nat
    ∧ is_Some (arg_generator_select_control_number args).
Proof.
  eexists. split; [|split].
  - vm_compute. do 7 apply list_elem_of_further. apply list_elem_of_here.
  - simpl. lia.
  - match goal with
    | |- is_Some (arg_generator_select_control_number ?a) =>
        assert (NewInteraction a ∈ (main studio selectable_flags).2) as Hin
          by (vm_compute; do 7 apply list_elem_of_further; apply list_elem_of_here);
        destruct (main_constructs_consistent_interaction studio selectable_flags
                    a Hin) as (_ & _ & H & _)
    end.
    apply H. simpl. lia.
Defined.

(** *** The order of the events *)

Lemma initialized_app l1 l2 :
  initialized (l1 ++ l2) = initialized l1 ++ initialized l2.
Proof. apply omap_app. Qed.

Lemma initialized_notices w f : initialized (notices w f) = [].
Proof. unfold notices. by repeat case_decide. Qed.

(** X8: On accepted flags with bundles that load, [main] initializes every
    generator before it opens the hub, constructs the interaction right
    after the hub, prints the instructions before it starts the
    interaction, sleeps until the interrupt, then stops the interaction
    and prints the last line. *)
Theorem main_runs_in_order w f files :
  (_validate_flags w f).1 = inr true →
  bundle_files f = Some files →
  forallb (loads w) (py_split "," files) = true →
  ∃ before args instructions,
    (main w f).2
    = before ++ [OpenMidiHub (arg_hub args); NewInteraction args]
      ++ instructions ++ [Start] ++ replicate (interrupt_after w) (Sleep 1)
      ++ [Stop; Print InteractionStopped]
    ∧ initialized before = arg_generators args
    ∧ Forall (λ e, e = SetVerbosity (log f) ∨ (∃ g, e = Initialize g)
                   ∨ ∃ m, e = Print m) before
    ∧ Forall (λ e, ∃ m, e = Print m) instructions.
Proof.
  intros Hv Hf [generators Hgens]%forallb_loads_mapM.
  destruct (main_accepted_with w f files generators Hv Hf Hgens)
    as (setup & ins & Hinit & Hs & Hi & Hm).
  exists ([SetVerbosity (log f)] ++ setup ++ notices w f),
         (the_interaction f generators), ins.
  split; [|split; [|split]].
  - rewrite Hm. cbn [snd]. by rewrite <- !app_assoc.
  - rewrite !initialized_app, initialized_notices, Hinit. simpl.
    by rewrite app_nil_r.
  - apply Forall_app. split; [by repeat constructor; left|].
    apply Forall_app. split.
    + eapply Forall_impl; [exact Hs|]. intros [] He; try done.
      * right; right. by eexists.
      * right; left. by eexists.
    + apply Forall_forall. intros e [[-> _]|[-> _]]%elem_of_notices;
        right; right; by eexists.
  - eapply Forall_impl; [exact Hi|]. intros [] He; try done. by eexists.
Qed.

Lemma main_runs_in_order_witness :
  ∃ before args instructions,
    (main studio two_bar_flags).2
    = before ++ [OpenMidiHub (arg_hub args); NewInteraction args]
      ++ instructions ++ [Start] ++ replicate 2 (Sleep 1)
      ++ [Stop; Print InteractionStopped]
    ∧ initialized before = arg_generators args.
Proof.
  destruct (main_runs_in_order studio two_bar_flags "basic_rnn.mag")
    as (before & args & ins & H1 & H2 & _); [reflexivity..|].
  by exists before, args, ins.
Defined.

(** *** The instructions *)

(** X9: [_print_instructions] returns exactly when a number of phrase bars or
    an end-call control number is specified (with neither, the [%d] of
    the end-call line raises [TypeError] and the lines after it are not
    printed).  When it returns, the lines follow the flags: the bars line
    is printed exactly for the specified phrase bars, the end-call line
    only without phrase bars, and the begin and wait lines exactly for a
    specified start-call control number. *)
Theorem print_instructions_follows_flags f :
  ((_print_instructions f).1 = inr () ↔
     is_Some (phrase_bars f) ∨ is_Some (end_call_control_number f))
  ∧ ((_print_instructions f).1 ≠ inr () →
       (Print PressCtrlC ∉ (_print_instructions f).2)
       ∧ ∃ what, (_print_instructions f).1 = inl (TypeError what))
  ∧ (∀ bars, Print (AfterBars bars) ∈ (_print_instructions f).2 ↔
             phrase_bars f = Some bars)
  ∧ (∀ c, Print (EndCallWith c) ∈ (_print_instructions f).2 ↔
          phrase_bars f = None ∧ end_call_control_number f = Some c)
  ∧ (∀ c, Print (BeginCallWith c) ∈ (_print_instructions f).2 ↔
          start_call_control_number f = Some c)
  ∧ (∀ c, Print (WaitForNewCall c) ∈ (_print_instructions f).2 ↔
          start_call_control_number f = Some c
          ∧ (is_Some (phrase_bars f) ∨ is_Some (end_call_control_number f))).
Proof.
  unfold _print_instructions.
  destruct (start_call_control_number f) as [s|], (phrase_bars f) as [b|],
    (end_call_control_number f) as [e|]; cbn.
  all: split_and!; try intros c.
  all: rewrite ?elem_of_cons, ?elem_of_nil.
  all: unfold is_Some.
  all: try (intuition (simplify_eq; eauto); fail).
  all: split; [intros H; repeat destruct H as [H|H]; by simplify_eq|].
  all: try (intros [[? ?]|[? ?]]; done).
  all: try (intros [_ [[? ?]|[? ?]]]; done).
Qed.

Lemma print_instructions_follows_flags_witness :
  Print (AfterBars 2) ∈ (_print_instructions both_boundaries_flags).2
  ∧ (Print (EndCallWith 2) ∉ (_print_instructions both_boundaries_flags).2)
  ∧ (_print_instructions default_flags).1 ≠ inr ().
Proof.
  destruct (print_instructions_follows_flags both_boundaries_flags)
    as (_ & _ & Hbars & Hend & _).
  split; [by apply Hbars|]. split.
  - intros [Hnone _]%Hend. discriminate Hnone.
  - intros Hret.
    apply (proj1 (print_instructions_follows_flags default_flags)) in Hret.
    destruct Hret as [[? Hx]|[? Hx]]; discriminate Hx.
Defined.

End MagentaMidiProperties.

Section DrumsRnnProperties.
Import DrumsRnn.

Local Open Scope Qc_scope.

(** *** Running programs *)

Lemma run_bind {A B} h (p : prog A) (k : A → prog B) :
  run h (bind p k) =
    match (run h p).1 with
    | inr a => ((run h (k a)).1, (run h p).2 ++ (run h (k a)).2)
    | inl e => (inl e, (run h p).2)
    end.
Proof.
  induction p as [a|e|c k' IH]; simpl.
  - by destruct (run h (k a)).
  - done.
  - destruct (h c) as [description|r]; [done|].
    rewrite IH. simpl. by destruct ((run h (k' r)).1).
Qed.

Lemma run_perform h c :
  run h (perform c) =
    match h c with
    | inl description => (inl (CalleeError description), [c])
    | inr r => (inr r, [c])
    end.
Proof. unfold perform. simpl. by destruct (h c). Qed.

Lemma always_run {A} (P : call → Prop) (Q : exn + A → Prop) h (p : prog A) :
  always P Q p → Forall P (run h p).2 ∧ Q (run h p).1.
Proof.
  induction p as [a|e|c k IH]; simpl.
  - by split.
  - by split.
  - intros (Hc & Hfail & Hk). destruct (h c) as [description|r]; simpl.
    + split; [by repeat constructor|done].
    + destruct (IH r (Hk r)) as [Hcalls Houtcome].
      split; [by constructor|done].
Qed.

Lemma always_bind {A B} (P : call → Prop) (Q : exn + B → Prop)
    (p : prog A) (k : A → prog B) :
  always P (λ x, match x with
                 | inr a => always P Q (k a)
                 | inl e => Q (inl e)
                 end) p →
  always P Q (bind p k).
Proof.
  induction p as [a|e|c k' IH]; simpl; [done..|].
  intros (Hc & Hfail & Hk). split; [done|]. split; [done|].
  intros r. apply IH, Hk.
Qed.

Lemma always_perform (P : call → Prop) c (Q : exn + result c → Prop) :
  P c → (∀ description, Q (inl (CalleeError description))) →
  (∀ r, Q (inr r)) →
  always P Q (perform c).
Proof. by intros; simpl. Qed.

(** *** The end of the last primer note *)

Lemma py_max_lt x xs t :
  py_max x xs < t ↔ x < t ∧ Forall (λ y, y < t) xs.
Proof.
  unfold py_max. revert x. induction xs as [|y ys IH]; intros x; simpl.
  - split; [by intros ?; split|by intros [? _]].
  - rewrite IH, Forall_cons. case_decide as Hxy.
    + split; [|tauto]. intros [Hy Hys].
      split; [by apply Qclt_trans with y|done].
    + apply Qcnot_lt_le in Hxy. split; [|tauto]. intros [Hx Hys].
      split; [done|]. split; [by apply Qcle_lt_trans with x|done].
Qed.

Lemma last_note_end_lt notes t :
  last_note_end notes < t ↔
  (∀ n, n ∈ notes → Note.end_time n < t) ∧ (notes = [] → 0 < t).
Proof.
  unfold last_note_end. destruct notes as [|n ns]; simpl.
  - split; [|by intros [_ H]; apply H].
    intros H. split; [|done]. intros n Hn. by apply elem_of_nil in Hn.
  - rewrite py_max_lt, Forall_fmap, Forall_forall. split.
    + intros [Hn Hns]. split; [|done].
      intros n' [->|Hn']%elem_of_cons; [done|]. by apply Hns.
    + intros [H _]. split.
      * apply H, list_elem_of_here.
      * intros n' Hn'. apply H. by apply list_elem_of_further.
Qed.

(** The end of the last note is the largest end time. *)
Lemma last_note_end_ge notes n :
  n ∈ notes → Note.end_time n ≤ last_note_end notes.
Proof.
  intros Hn. apply Qcnot_lt_le. intros Hlt.
  apply last_note_end_lt in Hlt as [Hall _].
  by apply Hall, Qclt_not_eq in Hn.
Qed.

(** *** Walking through [_generate] *)

Lemma always_ret {A} (P : call → Prop) (Q : exn + A → Prop) a :
  Q (inr a) → always P Q (Ret a).
Proof. done. Qed.

Lemma always_raise {A} (P : call → Prop) (Q : exn + A → Prop) e :
  Q (inl e) → always P Q (Raise e).
Proof. done. Qed.

Lemma always_call {A} (P : call → Prop) (Q : exn + A → Prop) c k :
  P c → (∀ description, Q (inl (CalleeError description))) →
  (∀ r, always P Q (k r)) →
  always P Q (Call c k).
Proof. done. Qed.

(** One step along the paths of a program. *)
Ltac walk :=
  cbv beta iota;
  lazymatch goal with
  | |- always _ _ (bind _ _) => apply always_bind
  | |- always _ _ (perform _) => apply always_perform; [ | intros ? | intros ? ]
  | |- always _ _ (Call _ _) => apply always_call; [ | intros ? | intros ? ]
  | |- always _ _ (if decide ?c then _ else _) => destruct (decide c)
  | |- always _ _ (first ?l) => destruct l eqn:?; cbn [first]
  | |- always _ _ (match ?x with _ => _ end) => destruct x eqn:?
  | |- always _ _ (Ret _) => apply always_ret
  | |- always _ _ (Raise _) => apply always_raise
  end.

(** *** The shape of the options *)

(** C3: [_generate] raises the SequenceGeneratorException about input
    sections when the options carry more than one input section, and the
    one about generate sections when (that check being passed) the number
    of generate sections is not one; with at most one input section and
    exactly one generate section, neither exception is the outcome,
    whatever the collaborators do. *)
Theorem generate_checks_shape D self input o :
  ((1 < length (input_sections o))%nat →
     _generate D self input o
     = Raise (SequenceGeneratorException
                (AtMostOneInputSection (length (input_sections o)))))
  ∧ ((length (input_sections o) ≤ 1)%nat →
     length (generate_sections o) ≠ 1%nat →
     _generate D self input o
     = Raise (SequenceGeneratorException
                (OnlyOneGenerateSection (length (generate_sections o)))))
  ∧ ((length (input_sections o) ≤ 1)%nat →
     length (generate_sections o) = 1%nat →
     ∀ h, ¬ is_shape_error (run h (_generate D self input o)).1).
Proof.
  split; [|split].
  - intros H. unfold _generate. by rewrite decide_True.
  - intros H1 H2. unfold _generate.
    rewrite decide_False by lia. by rewrite decide_True.
  - intros H1 H2 h.
    apply (always_run (λ _, True) (λ x, ¬ is_shape_error x) h).
    unfold _generate. rewrite decide_False by lia. rewrite decide_False by lia.
    repeat walk; try done; intros [got [H|H]]; discriminate H.
Qed.

Lemma generate_checks_shape_witness :
  ¬ is_shape_error
      (run session
         (_generate (Qc_of_Z 120) generator (Some call_phrase) respond_after_call)).1.
Proof.
  pose proof (generate_checks_shape (Qc_of_Z 120) generator (Some call_phrase)
                respond_after_call) as (_ & _ & H).
  apply H; simpl; lia.
Defined.

(** *** The end of the generated sequence *)




(** *** Generation arguments *)

Lemma extract_args_lookup (m : gmap string ArgValue.t) name v :
  extract_args m !! name = Some v ↔
  name ∈ recognized ∧ ∃ arg, m !! name = Some arg ∧ v = forwarded name arg.
Proof.
  unfold extract_args, arg_types, recognized, forwarded. simpl.
  destruct (m !! "temperature") as [a1|] eqn:H1;
  destruct (m !! "beam_size") as [a2|] eqn:H2;
  destruct (m !! "branch_factor") as [a3|] eqn:H3;
  destruct (m !! "steps_per_iteration") as [a4|] eqn:H4; simpl.
  all: rewrite ?lookup_insert, ?lookup_empty.
  all: rewrite !elem_of_cons, elem_of_nil.
  all: repeat case_decide; simplify_eq; naive_solver.
Qed.

Lemma extract_args_unrecognized (m : gmap string ArgValue.t) name arg :
  name ∉ recognized → extract_args (<[name := arg]> m) = extract_args m.
Proof.
  intros Hname. apply map_eq. intros k. apply option_eq. intros v.
  rewrite !extract_args_lookup.
  split; intros [Hk (a & Ha & Hv)]; (split; [done|]); exists a; (split; [|done]).
  - rewrite lookup_insert_ne in Ha; [done|]. by intros ->.
  - rewrite lookup_insert_ne; [done|]. by intros ->.
Qed.

(** C9: whatever the collaborators do, the keyword arguments of every
    call of the model are exactly the entries of the options' args whose
    names are in the fixed set, temperature read as a float value and the
    other three as int values; and adding an argument of any other name to
    the options changes nothing: [_generate] is the same program. *)
Theorem generate_forwards_recognized_args D self input o :
  (∀ h num_steps primer_drums kwargs,
     generate_drum_track num_steps primer_drums kwargs
       ∈ (run h (_generate D self input o)).2 →
     ∀ name v,
       kwargs !! name = Some v ↔
       name ∈ ["temperature"; "beam_size"; "branch_factor"; "steps_per_iteration"]
       ∧ ∃ arg, args o !! name = Some arg
                ∧ v = if decide (name = "temperature")
                      then PyFloat (ArgValue.float_value arg)
                      else PyInt (ArgValue.int_value arg))
  ∧ (∀ name arg,
       name ∉ ["temperature"; "beam_size"; "branch_factor"; "steps_per_iteration"] →
       _generate D self input (with_arg name arg o) = _generate D self input o).
Proof.
  split.
  - intros h num_steps primer_drums kwargs Hcall name v.
    cut (kwargs = extract_args (args o)).
    { intros ->. apply extract_args_lookup. }
    cut (always (λ c, match c with
                      | generate_drum_track _ _ kwargs =>
                          kwargs = extract_args (args o)
                      | _ => True
                      end) (λ _, True) (_generate D self input o)).
    { intros H. apply (always_run _ _ h) in H as [H _].
      eapply Forall_forall in H; [|exact Hcall]. exact H. }
    unfold _generate. repeat walk; done.
  - intros name arg Hname. unfold _generate, with_arg. simpl.
    by rewrite extract_args_unrecognized.
Qed.

Lemma generate_forwards_recognized_args_witness :
  ∃ kwargs,
    generate_drum_track 17 {| events := [[]]; start_step := 23 |} kwargs
      ∈ (run session
           (_generate (Qc_of_Z 120) generator (Some call_phrase) respond_after_call)).2
    ∧ kwargs !! "temperature" = Some (PyFloat (Qc_of_Z 1))
    ∧ kwargs !! "beam_size" = Some (PyInt 2)
    ∧ kwargs !! "volume" = None.
Proof.
  exists (extract_args (args respond_after_call)).
  assert (generate_drum_track 17 {| events := [[]]; start_step := 23 |}
            (extract_args (args respond_after_call))
          ∈ (run session
               (_generate (Qc_of_Z 120) generator (Some call_phrase)
                  respond_after_call)).2) as Hcall.
  { vm_compute. do 5 apply list_elem_of_further. apply list_elem_of_here. }
  split; [exact Hcall|].
  pose proof (proj1 (generate_forwards_recognized_args (Qc_of_Z 120) generator
                       (Some call_phrase) respond_after_call)
                session _ _ _ Hcall) as H.
  split; [|split].
  - apply H. split; [apply list_elem_of_here|].
    exists (ArgValue.Float (Qc_of_Z 1)). split; reflexivity.
  - apply H. split; [apply list_elem_of_further, list_elem_of_here|].
    exists (ArgValue.Int 2). split; reflexivity.
  - destruct (extract_args (args respond_after_call) !! "volume") as [v|] eqn:Hv;
      [|reflexivity].
    apply H in Hv as [Hin _]. exfalso.
    repeat (apply elem_of_cons in Hin as [Hin|Hin]; [discriminate Hin|]).
    by apply elem_of_nil in Hin.
Defined.

(** *** The generate range *)

(** *** The generate range *)

Lemma run_call_head {A} h c (k : result c → prog A) :
  c ∈ (run h (Call c k)).2.
Proof. simpl. destruct (h c); apply list_elem_of_here. Qed.

(** The range check compares the start of the generate section with the
    end of the last primer note. *)
Lemma range_check_compares_last_note D self h input o generate_section primer :
  generate_sections o = [generate_section] →
  primed h input o primer →
  (SequenceSection.start_time generate_section ≤ last_note_end (notes primer) →
     (run h (_generate D self input o)).1
     = inl (SequenceGeneratorException
              (SectionNotAfterEnd (SequenceSection.start_time generate_section)
                 (last_note_end (notes primer)))))
  ∧ (last_note_end (notes primer) < SequenceSection.start_time generate_section →
     quantize_note_sequence primer (steps_per_quarter self)
       ∈ (run h (_generate D self input o)).2
     ∧ ¬ is_range_error (run h (_generate D self input o)).1).
Proof.
  intros Hsection Hprimed. unfold _generate. rewrite Hsection.
  rewrite (decide_False (P := length [generate_section] ≠ 1%nat)) by (simpl; lia).
  assert (¬ (1 < length (input_sections o))%nat) as Hshape.
  { destruct Hprimed as [-> _|? -> _ _]; simpl; lia. }
  rewrite (decide_False _ _ Hshape).
  destruct input as [sequence|];
    [destruct (tempos sequence) as [|tempo ?];
       [rewrite decide_False by (by intros ?)|rewrite decide_True by done]|];
    cbn [first bind].
  all: destruct Hprimed as [-> Hinput|input_section -> Hextract Hstep];
    [injection Hinput as <- || discriminate Hinput|];
    cbn [first bind perform run fst snd];
    rewrite ?Hextract;
    repeat match goal with
    | Hstep : (∀ qpm, ∃ step, _ = inr step)
      |- context [seconds_to_steps (SequenceSection.start_time _) ?q] =>
        let step := fresh "step" in
        let Hs := fresh "Hs" in
        destruct (Hstep q) as [step Hs]; rewrite Hs; clear Hstep
    end;
    cbn [first bind perform run fst snd].
  all: split;
    [ intros Hle; by rewrite decide_True
    | intros Hlt%Qclt_not_le; rewrite (decide_False _ _ Hlt); split ].
  all: try (repeat apply list_elem_of_further; apply run_call_head).
  all: apply (always_run (λ _, True) (λ x, ¬ is_range_error x) h).
  all: repeat walk; try done; intros (? & ? & [=]).
Qed.

(** C2, the counterexample: the call is one note that ends at second 2 and
    the generate section starts at second 2; [_generate] raises the
    SequenceGeneratorException of the range check, both with the whole
    input as primer and with the span of the call as input section. *)
Lemma generate_rejects_range_at_end_of_call :
  last_note_end (notes call_phrase) = seconds 2
  ∧ _generate (Qc_of_Z 120) generator (Some call_phrase) respond_at_end_of_call
    = Raise (SequenceGeneratorException (SectionNotAfterEnd (seconds 2) (seconds 2)))
  ∧ (run session
       (_generate (Qc_of_Z 120) generator (Some call_phrase) respond_to_call_span)).1
    = inl (SequenceGeneratorException (SectionNotAfterEnd (seconds 2) (seconds 2))).
Proof. repeat split; reflexivity. Qed.

(** C2, as amended: the generator accepts a generate range that starts
    strictly after the end of the primer.  If a primer note ends at or
    after the start of the generate section (in particular exactly at it),
    [_generate] raises the SequenceGeneratorException of the range check;
    if every primer note ends strictly before it (and it is after second 0
    when the primer has no note), the range check is passed and [_generate]
    goes on to quantize the primer. *)
Theorem generate_range_check D self h input o generate_section primer :
  generate_sections o = [generate_section] →
  primed h input o primer →
  ((∃ n, n ∈ notes primer
         ∧ SequenceSection.start_time generate_section ≤ Note.end_time n) →
     is_range_error (run h (_generate D self input o)).1)
  ∧ ((∀ n, n ∈ notes primer →
           Note.end_time n < SequenceSection.start_time generate_section) →
     (notes primer = [] → 0 < SequenceSection.start_time generate_section) →
     ¬ is_range_error (run h (_generate D self input o)).1
     ∧ quantize_note_sequence primer (steps_per_quarter self)
         ∈ (run h (_generate D self input o)).2).
Proof.
  intros Hsection Hprimed.
  destruct (range_check_compares_last_note D self h input o generate_section
              primer Hsection Hprimed) as [Hreject Haccept].
  split.
  - intros (n & Hn & Hle). eexists _, _. apply Hreject.
    apply Qcle_trans with (Note.end_time n); [done|].
    by apply last_note_end_ge.
  - intros Hnotes Hempty.
    destruct Haccept as [? ?]; [|done].
    by apply last_note_end_lt.
Qed.

Lemma generate_range_check_witness :
  ¬ is_range_error
      (run session
         (_generate (Qc_of_Z 120) generator (Some call_phrase) respond_after_call)).1
  ∧ quantize_note_sequence call_phrase 4
      ∈ (run session
           (_generate (Qc_of_Z 120) generator (Some call_phrase) respond_after_call)).2.
Proof.
  refine (proj2 (generate_range_check (Qc_of_Z 120) generator session
                   (Some call_phrase) respond_after_call
                   {| SequenceSection.start_time := seconds 3;
                      SequenceSection.end_time := seconds 5 |}
                   call_phrase eq_refl _) _ _).
  - by apply primed_by_input.
  - intros n Hn. apply list_elem_of_singleton in Hn as ->. reflexivity.
  - intros Hnotes. discriminate Hnotes.
Defined.

(** *** The tempo *)

Lemma spec_qpm_cases D input :
  spec_qpm D input =
    match input with
    | Some sequence =>
        match tempos sequence with
        | tempo :: _ => Tempo.qpm tempo
        | [] => D
        end
    | None => D
    end.
Proof. by destruct input as [[]|]. Qed.

(** One step of a run against given collaborators. *)
Ltac run_walk :=
  repeat (cbn [run bind perform first fst snd];
          match goal with
          | |- context [match ?x with inl _ => _ | inr _ => _ end] =>
              destruct x eqn:?
          | |- context [first ?l] => destruct l eqn:?
          | |- context [if decide ?P then _ else _] => destruct (decide P)
          | |- context [match ?x with [] => _ | _ :: _ => _ end] =>
              destruct x eqn:?
          | |- context [match ?x with Some _ => _ | None => _ end] =>
              destruct x eqn:?
          end).



Example generate_without_tempo_uses_default :
  seconds_to_steps (seconds 3) (Qc_of_Z 120)
    ∈ (run session
         (_generate (Qc_of_Z 120) generator (Some call_phrase_without_tempo)
            respond_after_call)).2
  ∧ is_Some (match (run session
                      (_generate (Qc_of_Z 120) generator
                         (Some call_phrase_without_tempo) respond_after_call)).1
             with inr generated => Some generated | inl _ => None end).
Proof.
  split.
  - vm_compute. do 2 apply list_elem_of_further. apply list_elem_of_here.
  - vm_compute. eauto.
Qed.

(** ** Further properties of drums_rnn_sequence_generator.py *)

(** *** The end of the primer *)

Lemma py_max_elem x xs : py_max x xs ∈ x :: xs.
Proof.
  unfold py_max. revert x. induction xs as [|y ys IH]; intros x; simpl.
  - apply list_elem_of_here.
  - specialize (IH (if decide (x < y) then y else x)).
    apply elem_of_cons in IH as [->|IH].
    + case_decide.
      * apply list_elem_of_further, list_elem_of_here.
      * apply list_elem_of_here.
    + by do 2 apply list_elem_of_further.
Qed.

(** X10: [last_end_time] is 0 for a primer without notes; otherwise it is the
    end time of one of the notes and no note ends later, so it does not
    depend on the order of the notes. *)
Theorem last_note_end_is_latest notes :
  (notes = [] → last_note_end notes = 0)
  ∧ (notes ≠ [] →
       (∃ n, n ∈ notes ∧ Note.end_time n = last_note_end notes)
       ∧ ∀ n, n ∈ notes → Note.end_time n ≤ last_note_end notes)
  ∧ (∀ notes', notes ≡ₚ notes' → last_note_end notes' = last_note_end notes).
Proof.
  assert (∀ ns, ns ≠ [] → ∃ n, n ∈ ns ∧ Note.end_time n = last_note_end ns)
    as Hattained.
  { intros [|n ns] Hne; [done|]. unfold last_note_end. simpl.
    pose proof (py_max_elem (Note.end_time n) (Note.end_time <$> ns)) as Hin.
    change (py_max (Note.end_time n) (Note.end_time <$> ns)
            ∈ Note.end_time <$> (n :: ns)) in Hin.
    apply list_elem_of_fmap in Hin as (n' & Hn' & Hin). by exists n'. }
  split; [by intros ->|]. split.
  - intros Hne. split; [by apply Hattained|]. apply last_note_end_ge.
  - intros notes' Hperm.
    destruct notes as [|n ns].
    { by apply Permutation_nil_l in Hperm as ->. }
    assert (notes' ≠ []) as Hne'.
    { intros ->. by apply Permutation_nil_r in Hperm. }
    destruct (Hattained (n :: ns)) as (a & Ha & Hea); [done|].
    destruct (Hattained notes' Hne') as (b & Hb & Heb).
    apply Qcle_antisym.
    + rewrite <- Heb. apply last_note_end_ge. by rewrite Hperm.
    + rewrite <- Hea. apply last_note_end_ge. by rewrite <- Hperm.
Qed.

Lemma last_note_end_is_latest_witness :
  ∃ n, n ∈ notes call_phrase
       ∧ Note.end_time n = last_note_end (notes call_phrase).
Proof.
  destruct (last_note_end_is_latest (notes call_phrase)) as (_ & H & _).
  destruct H as [H _]; [discriminate|]. exact H.
Defined.

(** X11: With a primer that has no notes, the range check fails exactly when
    the generate section starts at or before second 0. *)
Theorem generate_without_primer_notes D self h input o generate_section primer :
  generate_sections o = [generate_section] →
  primed h input o primer →
  notes primer = [] →
  is_range_error (run h (_generate D self input o)).1
  ↔ SequenceSection.start_time generate_section ≤ 0.
Proof.
  intros Hsection Hprimed Hnotes.
  destruct (range_check_compares_last_note D self h input o generate_section
              primer Hsection Hprimed) as [Hreject Haccept].
  rewrite Hnotes in Hreject, Haccept. change (last_note_end []) with 0 in *.
  split.
  - intros Herr. apply Qcnot_lt_le. intros Hlt.
    by destruct (Haccept Hlt) as [_ Hno].
  - intros Hle. eexists _, _. by apply Hreject.
Qed.

Lemma generate_without_primer_notes_witness :
  is_range_error
    (run session
       (_generate (Qc_of_Z 120) generator (Some silence) respond_from_start)).1.
Proof.
  refine (proj2 (generate_without_primer_notes (Qc_of_Z 120) generator session
                   (Some silence) respond_from_start
                   {| SequenceSection.start_time := seconds 0;
                      SequenceSection.end_time := seconds 2 |}
                   silence eq_refl _ eq_refl) _).
  - by apply primed_by_input.
  - vm_compute. discriminate.
Defined.

(** *** The exceptions of [_generate] *)

(** X12: Whatever the collaborators do, a run of [_generate] returns a
    sequence or ends in a SequenceGeneratorException, an AssertionError,
    the exception of a collaborator, or the AttributeError of reading the
    notes of a missing input; the last one only when there is no input
    sequence and no input section. *)
Theorem generate_outcomes D self input o h :
  ((∃ generated, (run h (_generate D self input o)).1 = inr generated)
   ∨ (∃ why, (run h (_generate D self input o)).1
             = inl (SequenceGeneratorException why))
   ∨ (run h (_generate D self input o)).1 = inl AssertionError
   ∨ (∃ description, (run h (_generate D self input o)).1
                     = inl (CalleeError description))
   ∨ (run h (_generate D self input o)).1 = inl (AttributeError "notes"))
  ∧ (∀ name, (run h (_generate D self input o)).1 = inl (AttributeError name) →
             input = None ∧ input_sections o = []).
Proof.
  cut (always (λ _, True)
         (λ x, ((∃ generated, x = inr generated)
                ∨ (∃ why, x = inl (SequenceGeneratorException why))
                ∨ x = inl AssertionError
                ∨ (∃ description, x = inl (CalleeError description))
                ∨ x = inl (AttributeError "notes"))
               ∧ (∀ name, x = inl (AttributeError name) →
                          input = None ∧ input_sections o = []))
         (_generate D self input o)).
  { intros H. by apply (always_run _ _ h) in H as [_ H]. }
  unfold _generate.
  repeat walk; try done; simplify_eq.
  all: try (exfalso; simpl in *; lia).
  all: split; [|by intros ? [=]].
  all: eauto 10.
Qed.

(** *** What is handed to the collaborators *)


(** *** The call of the model *)

(** X14: The model is called at most once in a run; a run that returns a
    sequence has called it exactly once, and its last call converted the
    generated track to the returned sequence. *)
Theorem generate_calls_model_once D self input o h :
  (length (model_calls (run h (_generate D self input o)).2) ≤ 1)%nat
  ∧ (∀ generated,
       (run h (_generate D self input o)).1 = inr generated →
       length (model_calls (run h (_generate D self input o)).2) = 1%nat
       ∧ ∃ drums qpm,
           last (run h (_generate D self input o)).2 = Some (to_sequence drums qpm)
           ∧ h (to_sequence drums qpm) = inr generated).
Proof.
  unfold _generate. run_walk.
  all: split; [simpl; lia|].
  all: intros generated [=]; simplify_eq.
  all: split; [reflexivity|]; eauto.
Qed.

(** X15: With the input tempo and the single generate section, the model is
    asked to extend the track that [set_length] left, by the number of
    steps from the start step of that track to the end step of the
    generate section. *)
Theorem model_is_asked_up_to_end_step D self input o h num_steps primer_drums kwargs :
  (num_steps, primer_drums, kwargs)
    ∈ model_calls (run h (_generate D self input o)).2 →
  ∃ generate_section end_step drums steps,
    generate_sections o = [generate_section]
    ∧ h (seconds_to_steps (SequenceSection.end_time generate_section)
           (spec_qpm D input)) = inr end_step
    ∧ h (set_length drums steps) = inr primer_drums
    ∧ num_steps = (end_step - start_step primer_drums)%Z.
Proof.
  rewrite spec_qpm_cases. unfold _generate.
  destruct (generate_sections o) as [|generate_section [|]] eqn:Hsections;
    run_walk; cbn [model_calls omap fst snd]; intros Hin.
  all: repeat first
         [ apply elem_of_cons in Hin as [Hin|Hin]
         | apply elem_of_nil in Hin; destruct Hin ].
  all: try (exfalso; simpl in *; lia).
  all: simplify_eq.
  all: try match goal with H : ¬ _ :: _ ≠ [] |- _ => by destruct H end.
  all: eauto 10.
Qed.

Lemma model_is_asked_up_to_end_step_witness :
  ∃ end_step,
    session (seconds_to_steps (seconds 5) (Qc_of_Z 120)) = inr end_step
    ∧ 17%Z = (end_step - 23)%Z.
Proof.
  destruct (model_is_asked_up_to_end_step (Qc_of_Z 120) generator
              (Some call_phrase) respond_after_call session
              17 {| events := [[]]; start_step := 23 |}
              (extract_args (args respond_after_call)))
    as (generate_section & end_step & drums & steps & Hs & He & _ & Hn).
  { vm_compute. apply list_elem_of_here. }
  injection Hs as <-. by exists end_step.
Defined.

(** X16: When more than one drum track is extracted from the primer, the
    assertion on the number of tracks fails: the run that reaches the
    extraction ends in an AssertionError, and the model is never called. *)
Theorem generate_asserts_single_track D self input o (h : handler) :
  (∀ quantized search_start_step min_bars gap_bars,
     ∃ tracks,
       h (extract_drum_tracks quantized search_start_step min_bars gap_bars)
       = inr tracks
       ∧ (1 < length tracks)%nat) →
  model_calls (run h (_generate D self input o)).2 = []
  ∧ (∀ quantized search_start_step min_bars gap_bars,
       extract_drum_tracks quantized search_start_step min_bars gap_bars
         ∈ (run h (_generate D self input o)).2 →
       (run h (_generate D self input o)).1 = inl AssertionError).
Proof.
  intros Hmany. unfold _generate. run_walk.
  all: try match goal with
       | Hmany : (∀ q s m g, ∃ tracks, _ ∧ _),
         Heq : _ (extract_drum_tracks ?q ?s ?m ?g) = _ |- _ =>
           let Hx := fresh in
           destruct (Hmany q s m g) as (? & Hx & ?);
           rewrite Hx in Heq; simplify_eq
       end.
  all: cbn [run bind perform first fst snd model_calls omap].
  all: try done.
  all: try (exfalso; simpl in *; lia).
  all: split; [done|]; intros ? ? ? ? Hin.
  all: repeat first
         [ apply elem_of_cons in Hin as [Hin|Hin]
         | apply elem_of_nil in Hin; destruct Hin ].
  all: by simplify_eq.
Qed.

Lemma generate_asserts_single_track_witness :
  model_calls
    (run crowded
       (_generate (Qc_of_Z 120) generator (Some call_phrase) respond_after_call)).2
  = []
  ∧ (run crowded
       (_generate (Qc_of_Z 120) generator (Some call_phrase) respond_after_call)).1
    = inl AssertionError.
Proof.
  destruct (generate_asserts_single_track (Qc_of_Z 120) generator
              (Some call_phrase) respond_after_call crowded) as [H1 H2].
  { intros. eexists. split; [reflexivity|simpl; lia]. }
  split; [exact H1|].
  eapply H2. vm_compute. apply list_elem_of_further, list_elem_of_here.
Defined.

(** *** The step of silence *)

(** X17: When no drum track with events is extracted from the primer, the
    track handed to [set_length] is a new empty one that starts one step
    before the start step of the generate section (at step 0 at the
    earliest), and it is extended to that start step: by exactly one
    step of silence when the start step is at least 1. *)
Theorem generate_pads_one_step_of_silence D self input o (h : handler)
    generate_section drums steps :
  generate_sections o = [generate_section] →
  (∀ quantized search_start_step min_bars gap_bars track tracks,
     h (extract_drum_tracks quantized search_start_step min_bars gap_bars)
     = inr (track :: tracks) →
     events track = []) →
  set_length drums steps ∈ (run h (_generate D self input o)).2 →
  ∃ first_step,
    h (seconds_to_steps (SequenceSection.start_time generate_section)
         (spec_qpm D input)) = inr first_step
    ∧ drums = {| events := []; start_step := Z.max 0 (first_step - 1) |}
    ∧ steps = (first_step - Z.max 0 (first_step - 1))%Z
    ∧ ((1 ≤ first_step)%Z → steps = 1%Z ∧ start_step drums = (first_step - 1)%Z).
Proof.
  intros Hsections Hempty. rewrite spec_qpm_cases. unfold _generate.
  rewrite Hsections. run_walk.
  all: cbn [run bind perform first fst snd]; intros Hin.
  all: repeat first
         [ apply elem_of_cons in Hin as [Hin|Hin]
         | apply elem_of_nil in Hin; destruct Hin ].
  all: simplify_eq.
  all: try match goal with H : ¬ _ :: _ ≠ [] |- _ => by destruct H end.
  all: try match goal with
       | Hempty : (∀ q s m g track tracks, _ = inr (track :: tracks) → _),
         Heq : _ (extract_drum_tracks _ _ _ _) = inr (_ :: _) |- _ =>
           apply Hempty in Heq; simpl in Heq; done
       end.
  all: eexists; split; [first [eassumption|reflexivity]|];
       split; [reflexivity|]; split; [reflexivity|]; simpl; lia.
Qed.

Lemma generate_pads_one_step_of_silence_witness :
  ∃ first_step,
    session (seconds_to_steps (seconds 3) (Qc_of_Z 120)) = inr first_step
    ∧ 1%Z = (first_step - Z.max 0 (first_step - 1))%Z.
Proof.
  destruct (generate_pads_one_step_of_silence (Qc_of_Z 120) generator
              (Some call_phrase) respond_after_call session
              {| SequenceSection.start_time := seconds 3;
                 SequenceSection.end_time := seconds 5 |}
              {| events := []; start_step := 23 |} 1 eq_refl)
    as (first_step & Hs & _ & Hn & _).
  - intros ? ? ? ? ? ? Hx. discriminate Hx.
  - vm_compute. do 4 apply list_elem_of_further. apply list_elem_of_here.
  - by exists first_step.
Defined.

End DrumsRnnProperties.
